(** * VideoSubX web client: log console, upload session and command dispatch

    A shallow embedding of the browser client of VideoSubX (the page script
    that drives the remote subtitle pipeline) and the properties of its log
    consolidator, its local-input upload state machine, its start command
    and its log-channel reconnect.

    Strings are byte strings (UTF-8).  The script only searches its texts for
    the ASCII markers "%" and "it/s" and splits them at the ASCII line feed;
    an ASCII byte never occurs inside a multi-byte UTF-8 sequence, so these
    searches agree with the ones JavaScript performs on UTF-16 code units. *)

From Stdlib Require Import List Bool Ascii String ZArith NArith Lia.
From Stdlib Require Import Sorted DecimalString.
From Stdlib Require Import QArith Qround Qpower Lqa.
Import ListNotations.

Close Scope Q_scope.
Local Open Scope string_scope.
Local Open Scope list_scope.

(** ** JavaScript string primitives used by the script *)

Module Js.

(** [s.startsWith(sub)] *)
Fixpoint startsWith (sub s : string) : bool :=
  match sub, s with
  | EmptyString, _ => true
  | String a sub', String b s' => Ascii.eqb a b && startsWith sub' s'
  | String _ _, EmptyString => false
  end.

(** [s.includes(sub)] *)
Fixpoint includes (sub s : string) : bool :=
  startsWith sub s ||
  match s with
  | EmptyString => false
  | String _ s' => includes sub s'
  end.

Definition newline : ascii := "010"%char.

(** The text [s] followed by a line feed. *)
Definition line (s : string) : string := String.append s (String newline EmptyString).

(** [s.split("\n")]: never empty, the empty string gives one empty piece. *)
Fixpoint split (s : string) : list string :=
  match s with
  | EmptyString => [EmptyString]
  | String c s' =>
      if Ascii.eqb c newline then EmptyString :: split s'
      else match split s' with
           | piece :: rest => String c piece :: rest
           | [] => [String c EmptyString]
           end
  end.

(** Truthiness of a string: [!s] holds exactly for the empty string. *)
Definition truthy (s : string) : bool :=
  match s with EmptyString => false | String _ _ => true end.

(** [s.trim()].  The white space and line terminators of ECMAScript, in
    their UTF-8 encodings: U+0009..U+000D, U+0020, U+00A0, U+1680,
    U+2000..U+200A, U+2028, U+2029, U+202F, U+205F, U+3000, U+FEFF. *)
Definition bytes (codes : list nat) : string :=
  string_of_list_ascii (map ascii_of_nat codes).

Definition whiteSpace : list string :=
  map bytes
    [[9]; [10]; [11]; [12]; [13]; [32]; [194; 160]; [225; 154; 128];
     [226; 128; 128]; [226; 128; 129]; [226; 128; 130]; [226; 128; 131];
     [226; 128; 132]; [226; 128; 133]; [226; 128; 134]; [226; 128; 135];
     [226; 128; 136]; [226; 128; 137]; [226; 128; 138]; [226; 128; 168];
     [226; 128; 169]; [226; 128; 175]; [226; 129; 159]; [227; 128; 128];
     [239; 187; 191]].

Definition reverse (s : string) : string :=
  string_of_list_ascii (rev (list_ascii_of_string s)).

(** [Some rest] when [s] is [p] followed by [rest]. *)
Fixpoint dropPrefix (p s : string) : option string :=
  match p, s with
  | EmptyString, _ => Some s
  | String a p', String b s' =>
      if Ascii.eqb a b then dropPrefix p' s' else None
  | String _ _, EmptyString => None
  end.

Fixpoint dropOneOf (table : list string) (s : string) : option string :=
  match table with
  | [] => None
  | p :: table' =>
      match dropPrefix p s with
      | Some rest => Some rest
      | None => dropOneOf table' s
      end
  end.

Fixpoint dropLeading (table : list string) (fuel : nat) (s : string) : string :=
  match fuel with
  | O => s
  | S fuel' =>
      match dropOneOf table s with
      | Some rest => dropLeading table fuel' rest
      | None => s
      end
  end.

Definition trimStart (s : string) : string :=
  dropLeading whiteSpace (String.length s) s.

Definition trimEnd (s : string) : string :=
  reverse (dropLeading (map reverse whiteSpace) (String.length s) (reverse s)).

Definition trim (s : string) : string := trimEnd (trimStart s).

End Js.

(** ** The log console ([consoleOutput]) and [logToConsole]

    The console element is the list of the text contents of its children
    (the [div.log-line] entries), in document order. *)

Definition Console := list string.

(** [consoleOutput.lastElementChild], if any. *)
Fixpoint lastElementChild (children : Console) : option string :=
  match children with
  | [] => None
  | [entry] => Some entry
  | _ :: rest => lastElementChild rest
  end.

(** [lastChild.textContent = line] on the last child. *)
Fixpoint setLastTextContent (line : string) (children : Console) : Console :=
  match children with
  | [] => []
  | [_] => [line]
  | entry :: rest => entry :: setLastTextContent line rest
  end.

(** [consoleOutput.appendChild(div)] with [div.textContent = line]. *)
Definition appendChild (line : string) (children : Console) : Console :=
  children ++ [line].

(** [line.includes("%") || line.includes("it/s")] *)
Definition isProgressLine (line : string) : bool :=
  Js.includes "%" line || Js.includes "it/s" line.

(** The body of [lines.forEach] in [logToConsole] (the page script of
    src/unnamed/part_000). *)
Definition logLine (children : Console) (line : string) : Console :=
  if negb (Js.truthy line) then children
  else
    let lastChild := lastElementChild children in
    let lastIsProgress :=
      match lastChild with
      | Some textContent => isProgressLine textContent
      | None => false
      end in
    match lastChild with
    | Some _ =>
        if isProgressLine line && lastIsProgress
        then setLastTextContent line children
        else appendChild line children
    | None => appendChild line children
    end.

(** [logToConsole(text)] as a function on the console's children.  The final
    [scrollTop] assignment does not touch the children. *)
Definition logToConsole (text : string) (children : Console) : Console :=
  if negb (Js.truthy text) then children
  else fold_left logLine (Js.split text) children.

(** The older script (src/static/script.js) writes the same loop with an
    if/else instead of the early return. *)
Module Legacy.

Definition logLine (children : Console) (line : string) : Console :=
  if negb (Js.truthy line) then children
  else
    match lastElementChild children with
    | Some textContent =>
        if (Js.includes "%" line || Js.includes "it/s" line)
           && (Js.includes "%" textContent || Js.includes "it/s" textContent)
        then setLastTextContent line children
        else appendChild line children
    | None => appendChild line children
    end.

Definition logToConsole (text : string) (children : Console) : Console :=
  if negb (Js.truthy text) then children
  else fold_left logLine (Js.split text) children.

End Legacy.

(** Feeding a sequence of text chunks (WebSocket messages, local messages)
    to the console, oldest first. *)
Definition feed (chunks : list string) (children : Console) : Console :=
  fold_left (fun c text => logToConsole text c) chunks children.

(** The lines the consolidator sees in a sequence of chunks: every chunk is
    split at line feeds and the empty pieces are discarded. *)
Definition linesOf (chunks : list string) : list string :=
  filter Js.truthy (flat_map Js.split chunks).

(** A discrete line is a line that is not progress-like. *)
Definition isDiscrete (line : string) : bool := negb (isProgressLine line).

Definition countDiscrete (lines : list string) : nat :=
  List.length (filter isDiscrete lines).

(** Number of maximal runs of consecutive progress-like lines; [inRun] tells
    whether the line before the head of the list was progress-like. *)
Fixpoint countRunsFrom (inRun : bool) (lines : list string) : nat :=
  match lines with
  | [] => 0
  | line :: rest =>
      if isProgressLine line
      then (if inRun then 0 else 1) + countRunsFrom true rest
      else countRunsFrom false rest
  end.

Definition countRuns (lines : list string) : nat := countRunsFrom false lines.

(** The count the specification words give for the console's entries: the
    discrete lines, plus one when some line is progress-like. *)
Definition claimedEntries (lines : list string) : nat :=
  countDiscrete lines + (if existsb isProgressLine lines then 1 else 0).

(** Whether the trailing entry of the console is progress-like. *)
Definition trailingIsProgress (children : Console) : bool :=
  match lastElementChild children with
  | Some textContent => isProgressLine textContent
  | None => false
  end.


(** ** JavaScript numbers used by the script

    The script computes with non-negative numbers only: byte counts, the
    constants 0, 99 and 100 and what [/], [*], [Math.floor] and [Math.min]
    make of them.  A finite number is the rational it denotes; [rne] rounds a
    rational to the nearest binary64 value, ties to even (byte counts are
    below 2^64 and quotients of them at least 2^-64, far from overflow and
    from the subnormal range, so the exponent range plays no role). *)

Module Number.

Inductive number : Type :=
| NaN
| Infinity
| Num (q : Q).

Definition ofZ (z : Z) : number := Num (inject_Z z).

(** Nearest integer, ties to the even one. *)
Definition roundHalfEven (q : Q) : Z :=
  let f := Qfloor q in
  match (q - inject_Z f ?= 1 # 2)%Q with
  | Lt => f
  | Gt => (f + 1)%Z
  | Eq => if Z.even f then f else (f + 1)%Z
  end.

(** [floor (log2 q)] for a positive rational. *)
Definition ilog2 (q : Q) : Z :=
  let k := (Z.log2 (Qnum q) - Z.log2 (Zpos (Qden q)))%Z in
  if Qle_bool (2 ^ k) q then k else (k - 1)%Z.

(** Round to 53 significant bits. *)
Definition rne (q : Q) : Q :=
  if Qle_bool q 0 then 0%Q
  else
    let e := (ilog2 q - 52)%Z in
    (inject_Z (roundHalfEven (q / 2 ^ e)) * 2 ^ e)%Q.

(** An [unsigned long long] attribute read as a number. *)
Definition ofUint64 (n : N) : number := Num (rne (inject_Z (Z.of_N n))).

(** [a / b] *)
Definition div (a b : number) : number :=
  match a, b with
  | NaN, _ | _, NaN => NaN
  | Infinity, Infinity => NaN
  | Infinity, Num _ => Infinity
  | Num _, Infinity => Num 0
  | Num x, Num y =>
      if Qeq_bool y 0
      then (if Qeq_bool x 0 then NaN else Infinity)
      else Num (rne (x / y))
  end.

(** [a * b] *)
Definition mul (a b : number) : number :=
  match a, b with
  | NaN, _ | _, NaN => NaN
  | Infinity, Infinity => Infinity
  | Infinity, Num y => if Qeq_bool y 0 then NaN else Infinity
  | Num x, Infinity => if Qeq_bool x 0 then NaN else Infinity
  | Num x, Num y => Num (rne (x * y))
  end.

(** [Math.floor(a)] *)
Definition floor (a : number) : number :=
  match a with
  | Num q => Num (inject_Z (Qfloor q))
  | _ => a
  end.

(** [Math.min(a, b)] *)
Definition min (a b : number) : number :=
  match a, b with
  | NaN, _ | _, NaN => NaN
  | Infinity, _ => b
  | _, Infinity => a
  | Num x, Num y => if Qle_bool x y then a else b
  end.

(** [Math.max(a, b)] *)
Definition max (a b : number) : number :=
  match a, b with
  | NaN, _ | _, NaN => NaN
  | Infinity, _ | _, Infinity => Infinity
  | Num x, Num y => if Qle_bool x y then b else a
  end.

(** [a || 0]: NaN and 0 are falsy. *)
Definition orZero (a : number) : number :=
  match a with
  | NaN => Num 0
  | Infinity => Infinity
  | Num q => if Qeq_bool q 0 then Num 0 else a
  end.

(** Order on finite numbers. *)
Definition le (a b : number) : Prop :=
  match a, b with
  | Num x, Num y => (x <= y)%Q
  | _, _ => False
  end.

(** The finite number [a] is an integer at most [bound]. *)
Definition isIntegerUpTo (bound : Z) (a : number) : Prop :=
  exists p : Z, a = ofZ p /\ (0 <= p <= bound)%Z.

End Number.

Import Number.

(** ** The page state the script reads and writes *)

(** [localInputState.mode] *)
Inductive Mode : Type := empty | uploading | ready | error.

Definition Mode_eqb (a b : Mode) : bool :=
  match a, b with
  | empty, empty | uploading, uploading | ready, ready | error, error => true
  | _, _ => false
  end.

(** [localInputState] *)
Record LocalInputState : Type := {
  mode : Mode;
  fileName : string;
  progress : number
}.

(** A [File] of the file picker; the script reads its [name] only. *)
Record File : Type := { name : string }.

(** The text of [btnSelectVideo]: "上传中 p%", "更换文件", "重试上传" or
    "选择文件". *)
Inductive ButtonText : Type :=
| TextUploading (p : number)
| TextReplace
| TextRetry
| TextChoose.

Inductive Callback : Type := CallConnectWebSocket.

(** A pending [setTimeout]: the callback and the time at which it is due. *)
Record Timer : Type := { due : Z; callback : Callback }.

Record World : Type := {
  localInputState : LocalInputState;
  isTaskRunning : bool;
  urlValue : string;                    (* elUrl.value *)
  consoleOutput : Console;              (* children of #console-output *)
  btnStartDisabled : bool;              (* btnStart.disabled *)
  btnSelectVideoDisabled : bool;        (* btnSelectVideo.disabled *)
  btnSelectVideoText : ButtonText;      (* btnSelectVideo.textContent *)
  selectedVideoName : string;           (* selectedVideoName.textContent *)
  online : bool;                        (* elConnection shows ONLINE *)
  sockets : nat;                        (* WebSocket objects created so far *)
  timers : list Timer;                  (* pending timeouts, oldest first *)
  now : Z                               (* the clock, in milliseconds *)
}.

Definition withLocalInputState (s : LocalInputState) (w : World) : World :=
  {| localInputState := s; isTaskRunning := isTaskRunning w;
     urlValue := urlValue w; consoleOutput := consoleOutput w;
     btnStartDisabled := btnStartDisabled w;
     btnSelectVideoDisabled := btnSelectVideoDisabled w;
     btnSelectVideoText := btnSelectVideoText w;
     selectedVideoName := selectedVideoName w; online := online w;
     sockets := sockets w; timers := timers w; now := now w |}.

Definition withIsTaskRunning (b : bool) (w : World) : World :=
  {| localInputState := localInputState w; isTaskRunning := b;
     urlValue := urlValue w; consoleOutput := consoleOutput w;
     btnStartDisabled := btnStartDisabled w;
     btnSelectVideoDisabled := btnSelectVideoDisabled w;
     btnSelectVideoText := btnSelectVideoText w;
     selectedVideoName := selectedVideoName w; online := online w;
     sockets := sockets w; timers := timers w; now := now w |}.

Definition withUrlValue (v : string) (w : World) : World :=
  {| localInputState := localInputState w; isTaskRunning := isTaskRunning w;
     urlValue := v; consoleOutput := consoleOutput w;
     btnStartDisabled := btnStartDisabled w;
     btnSelectVideoDisabled := btnSelectVideoDisabled w;
     btnSelectVideoText := btnSelectVideoText w;
     selectedVideoName := selectedVideoName w; online := online w;
     sockets := sockets w; timers := timers w; now := now w |}.

Definition withConsoleOutput (c : Console) (w : World) : World :=
  {| localInputState := localInputState w; isTaskRunning := isTaskRunning w;
     urlValue := urlValue w; consoleOutput := c;
     btnStartDisabled := btnStartDisabled w;
     btnSelectVideoDisabled := btnSelectVideoDisabled w;
     btnSelectVideoText := btnSelectVideoText w;
     selectedVideoName := selectedVideoName w; online := online w;
     sockets := sockets w; timers := timers w; now := now w |}.

Definition withButtons (startDisabled selectDisabled : bool) (w : World) : World :=
  {| localInputState := localInputState w; isTaskRunning := isTaskRunning w;
     urlValue := urlValue w; consoleOutput := consoleOutput w;
     btnStartDisabled := startDisabled;
     btnSelectVideoDisabled := selectDisabled;
     btnSelectVideoText := btnSelectVideoText w;
     selectedVideoName := selectedVideoName w; online := online w;
     sockets := sockets w; timers := timers w; now := now w |}.

Definition withTexts (button : ButtonText) (selected : string) (w : World) : World :=
  {| localInputState := localInputState w; isTaskRunning := isTaskRunning w;
     urlValue := urlValue w; consoleOutput := consoleOutput w;
     btnStartDisabled := btnStartDisabled w;
     btnSelectVideoDisabled := btnSelectVideoDisabled w;
     btnSelectVideoText := button;
     selectedVideoName := selected; online := online w;
     sockets := sockets w; timers := timers w; now := now w |}.

Definition withOnline (b : bool) (w : World) : World :=
  {| localInputState := localInputState w; isTaskRunning := isTaskRunning w;
     urlValue := urlValue w; consoleOutput := consoleOutput w;
     btnStartDisabled := btnStartDisabled w;
     btnSelectVideoDisabled := btnSelectVideoDisabled w;
     btnSelectVideoText := btnSelectVideoText w;
     selectedVideoName := selectedVideoName w; online := b;
     sockets := sockets w; timers := timers w; now := now w |}.

Definition withSockets (n : nat) (w : World) : World :=
  {| localInputState := localInputState w; isTaskRunning := isTaskRunning w;
     urlValue := urlValue w; consoleOutput := consoleOutput w;
     btnStartDisabled := btnStartDisabled w;
     btnSelectVideoDisabled := btnSelectVideoDisabled w;
     btnSelectVideoText := btnSelectVideoText w;
     selectedVideoName := selectedVideoName w; online := online w;
     sockets := n; timers := timers w; now := now w |}.

Definition withTimers (ts : list Timer) (w : World) : World :=
  {| localInputState := localInputState w; isTaskRunning := isTaskRunning w;
     urlValue := urlValue w; consoleOutput := consoleOutput w;
     btnStartDisabled := btnStartDisabled w;
     btnSelectVideoDisabled := btnSelectVideoDisabled w;
     btnSelectVideoText := btnSelectVideoText w;
     selectedVideoName := selectedVideoName w; online := online w;
     sockets := sockets w; timers := ts; now := now w |}.

Definition withNow (t : Z) (w : World) : World :=
  {| localInputState := localInputState w; isTaskRunning := isTaskRunning w;
     urlValue := urlValue w; consoleOutput := consoleOutput w;
     btnStartDisabled := btnStartDisabled w;
     btnSelectVideoDisabled := btnSelectVideoDisabled w;
     btnSelectVideoText := btnSelectVideoText w;
     selectedVideoName := selectedVideoName w; online := online w;
     sockets := sockets w; timers := timers w; now := t |}.

(** [logToConsole(text)] on the page. *)
Definition log (text : string) (w : World) : World :=
  withConsoleOutput (logToConsole text (consoleOutput w)) w.

(** ** Rendering and [setLocalInputState] *)

Definition syncButtonDisabledStates (w : World) : World :=
  let busyUploading := Mode_eqb (mode (localInputState w)) uploading in
  withButtons (isTaskRunning w || busyUploading)
              (isTaskRunning w || busyUploading) w.

Definition renderLocalInputButton (w : World) : World :=
  let s := localInputState w in
  let button :=
    match mode s with
    | uploading =>
        TextUploading
          (Number.max (ofZ 0) (Number.min (ofZ 100) (orZero (progress s))))
    | ready => TextReplace
    | error => TextRetry
    | empty => TextChoose
    end in
  let selected :=
    match mode s with
    | ready => if Js.truthy (fileName s) then fileName s else "未选择文件"
    | uploading => if Js.truthy (fileName s) then fileName s else "未选择文件"
    | error => "上传失败"
    | empty => "未选择文件"
    end in
  syncButtonDisabledStates (withTexts button selected w).

(** [setLocalInputState(mode, fileName, progress)]; a call that leaves out
    [fileName] or [progress] is the call with [""] and [0]: the body stores
    [fileName || ""] and [progress || 0]. *)
Definition setLocalInputState
    (m : Mode) (file_name : string) (p : number) (w : World) : World :=
  renderLocalInputButton
    (withLocalInputState
       {| mode := m; fileName := file_name; progress := orZero p |} w).

(** ** Remote calls and suspended handlers *)

Inductive Method : Type := GET | POST.

Inductive Body : Type :=
| NoBody
| JsonUrl (url : string)              (* JSON.stringify({ url }) *)
| FormFile (file : File).             (* FormData with the file *)

Record Request : Type := { endpoint : string; method : Method; body : Body }.

(** What the script reads in the reply of GET /local_input/state:
    [data?.state] ([None]: absent or not a string, which differs from
    "ready") and [data.file?.name] ([None]: absent).  The name of a reply
    is taken to be a string when it is there: a name of another type,
    which the script would test for truthiness and store as it is, is
    outside this record. *)
Record StateReply : Type := {
  state : option string;
  file_name : option string
}.

(** The outcome of [await apiCall(...)]: the payload ([None] for [null]) or
    the message of the error thrown (transport failure or non-2xx status). *)
Inductive ApiResult : Type :=
| Fulfilled (data : option StateReply)
| Rejected (message : string).

(** The value [data] of [xhr.onload] once [JSON.parse] has run: [null], or a
    value with its [filename] and [message] properties ([None]: absent).  An
    empty or unparsable body is the empty object. *)
Inductive UploadData : Type :=
| DataNull
| DataObject (filename message : option string).

Definition emptyObject : UploadData := DataObject None None.

(** How the promise of [uploadLocalInputWithProgress] settles. *)
Inductive Settlement : Type :=
| Resolve (data : UploadData)
| Reject (message : string).

(** A handler runs until it returns or until its next [await]; a suspended
    handler keeps the world it has reached, names what it waits for and
    resumes, in the world of that later moment, with the outcome. *)
Inductive Task : Type :=
| Done (w : World)
| AwaitApi (w : World) (req : Request) (k : ApiResult -> World -> Task)
| AwaitUpload (w : World) (file : File) (k : Settlement -> World -> Task).

(** The world when the handler returns or suspends. *)
Definition worldOf (t : Task) : World :=
  match t with
  | Done w => w
  | AwaitApi w _ _ => w
  | AwaitUpload w _ _ => w
  end.

(** The remote call issued by the handler's first stretch, if any; the
    upload is POST /local_input/upload with the file as form data. *)
Definition issued (t : Task) : option Request :=
  match t with
  | Done _ => None
  | AwaitApi _ req _ => Some req
  | AwaitUpload _ file _ =>
      Some {| endpoint := "/local_input/upload"; method := POST;
              body := FormFile file |}
  end.

(** A task suspended on a remote call, resumed with the outcome [r] in the
    world [w] of the moment the outcome arrives. *)
Definition resumeApi (t : Task) (r : ApiResult) (w : World) : Task :=
  match t with
  | AwaitApi _ _ k => k r w
  | _ => t
  end.

(** A task that never sends a file again, whatever the replies. *)
Inductive NeverUploads : Task -> Prop :=
| NeverUploads_done w : NeverUploads (Done w)
| NeverUploads_api w req k :
    endpoint req <> "/local_input/upload" ->
    (forall r w', NeverUploads (k r w')) ->
    NeverUploads (AwaitApi w req k).

(** ** The local-input upload state machine *)

(** [data?.state === "ready" && data.file?.name]: the name when the
    condition holds. *)
Definition readyName (data : option StateReply) : option string :=
  match data with
  | Some reply =>
      match state reply, file_name reply with
      | Some st, Some nm =>
          if String.eqb st "ready" && Js.truthy nm then Some nm else None
      | _, _ => None
      end
  | None => None
  end.

(** The pull succeeded and reports a ready state with a file name. *)
Definition reportsReady (r : ApiResult) : bool :=
  match r with
  | Fulfilled data =>
      match readyName data with Some _ => true | None => false end
  | Rejected _ => false
  end.

(** [refreshLocalInputState] after its [await]: the [try] body on a payload,
    the [catch] on an error. *)
Definition refreshLocalInputState_result (r : ApiResult) (w : World) : World :=
  match r with
  | Fulfilled data =>
      match readyName data with
      | Some nm => setLocalInputState ready nm (ofZ 100) w
      | None => setLocalInputState empty "" (ofZ 0) w
      end
  | Rejected message =>
      log ("!! 本地缓存状态异常: " ++ message)%string
          (setLocalInputState empty "" (ofZ 0) w)
  end.

Definition refreshLocalInputState (w : World) : Task :=
  AwaitApi w
    {| endpoint := "/local_input/state"; method := GET; body := NoBody |}
    (fun r w' => Done (refreshLocalInputState_result r w')).

(** A [ProgressEvent] of [xhr.upload]. *)
Record ProgressEvent : Type := {
  lengthComputable : bool;
  loaded : N;
  total : N
}.

(** [Math.min(99, Math.floor((event.loaded / event.total) * 100))] *)
Definition percentOf (event : ProgressEvent) : number :=
  Number.min (ofZ 99)
    (Number.floor
       (Number.mul (Number.div (ofUint64 (loaded event)) (ofUint64 (total event)))
                   (ofZ 100))).

(** The integer which that expression, stored through [progress || 0],
    amounts to: 0 for 0/0 (NaN), 99 for a positive count over a zero total
    (Infinity), else the floor of the twice rounded quotient, at most 99. *)
Definition percentZ (event : ProgressEvent) : Z :=
  let x := rne (inject_Z (Z.of_N (loaded event))) in
  let t := rne (inject_Z (Z.of_N (total event))) in
  if Qeq_bool t 0 then (if Qeq_bool x 0 then 0%Z else 99%Z)
  else Z.min 99 (Qfloor (rne (rne (x / t) * 100))).

(** [xhr.upload.onprogress]; [file] is the file of the enclosing call. *)
Definition xhr_upload_onprogress
    (file : File) (event : ProgressEvent) (w : World) : World :=
  if negb (lengthComputable event) then w
  else setLocalInputState uploading (name file) (percentOf event) w.

(** The decimal text of a status code. *)
Definition statusText (status : Z) : string :=
  DecimalString.NilZero.string_of_int (Z.to_int status).

(** [xhr.onload]: the world it leaves and how it settles the promise.  With
    a non-2xx status and [data] null, reading [data.message] throws inside
    the handler and the promise stays pending. *)
Definition xhr_onload
    (file : File) (status : Z) (data : UploadData) (w : World)
    : World * option Settlement :=
  if ((200 <=? status) && (status <? 300))%Z
  then (setLocalInputState uploading (name file) (ofZ 100) w,
        Some (Resolve data))
  else
    match data with
    | DataNull => (w, None)
    | DataObject _ message =>
        (w, Some (Reject
                    (match message with
                     | Some m => if Js.truthy m then m
                                 else ("HTTP " ++ statusText status)%string
                     | None => ("HTTP " ++ statusText status)%string
                     end)))
    end.

(** [xhr.onerror] *)
Definition xhr_onerror (w : World) : World * option Settlement :=
  (w, Some (Reject "Network error")).

(** [result?.filename || file.name] *)
Definition savedNameOf (file : File) (result : UploadData) : string :=
  match result with
  | DataObject (Some filename) _ =>
      if Js.truthy filename then filename else name file
  | _ => name file
  end.

(** The change handler of [videoUploadInput] after
    [await uploadLocalInputWithProgress(file)]: the [try] continuation or the
    [catch], then the [finally] block, which suspends on the refresh. *)
Definition uploadSettled (file : File) (s : Settlement) (w : World) : Task :=
  let w1 :=
    match s with
    | Resolve result =>
        let savedName := savedNameOf file result in
        log (">> 本地文件已缓存: " ++ savedName)%string
            (setLocalInputState ready savedName (ofZ 100) w)
    | Reject message =>
        log ("!! 本地文件上传失败: " ++ message)%string
            (setLocalInputState error (name file) (ofZ 0) w)
    end in
  refreshLocalInputState w1.

(** The change handler of [videoUploadInput] up to its first [await];
    [files] is [videoUploadInput.files] (null is the empty list). *)
Definition videoUploadInput_change (files : list File) (w : World) : Task :=
  match files with
  | [] => Done w
  | file :: _ =>
      let w1 := withUrlValue "" w in
      let w2 := setLocalInputState uploading (name file) (ofZ 0) w1 in
      let w3 := log (">> 开始上传本地文件: " ++ name file)%string w2 in
      AwaitUpload w3 file (uploadSettled file)
  end.

(** A settled upload runs the rest of the change handler in the same turn
    of the event loop (promise reactions run before any other event). *)
Definition settle (file : File) (r : World * option Settlement) : Task :=
  match r with
  | (w, Some s) => uploadSettled file s w
  | (w, None) => Done w
  end.

(** ** The start command *)

Definition startResult (okLine : string) (r : ApiResult) (w : World) : Task :=
  match r with
  | Fulfilled _ => Done (log okLine w)
  | Rejected message => Done (log ("!! 启动失败: " ++ message)%string w)
  end.

(** The click handler of [btnStart]. *)
Definition btnStart_click (w : World) : Task :=
  let url := Js.trim (urlValue w) in
  if Mode_eqb (mode (localInputState w)) uploading
  then Done (log "!! 文件上传中，请稍后再开始任务" w)
  else if Js.truthy url
  then AwaitApi w {| endpoint := "/start"; method := POST; body := JsonUrl url |}
         (startResult ">> 已按链接模式开始任务")
  else AwaitApi w {| endpoint := "/start_local"; method := POST; body := NoBody |}
         (startResult ">> 已按本地缓存模式开始任务").

(** ** The log channel *)

Definition updateConnectionStatus (isOpen : bool) (w : World) : World :=
  withOnline isOpen w.

(** [connectWebSocket]: the indicator goes offline and a socket is made. *)
Definition connectWebSocket (w : World) : World :=
  withSockets (S (sockets w)) (updateConnectionStatus false w).

Definition ws_onopen (w : World) : World :=
  log ">> 日志服务已连接" (updateConnectionStatus true w).

Definition ws_onmessage (data : string) (w : World) : World := log data w.

(** [setTimeout(callback, delay)] *)
Definition setTimeout (cb : Callback) (delay : Z) (w : World) : World :=
  withTimers (timers w ++ [{| due := now w + delay; callback := cb |}]) w.

Definition ws_onclose (w : World) : World :=
  setTimeout CallConnectWebSocket 3000 (updateConnectionStatus false w).

Definition ws_onerror (w : World) : World := updateConnectionStatus false w.

Definition call (cb : Callback) (w : World) : World :=
  match cb with
  | CallConnectWebSocket => connectWebSocket w
  end.

Definition isDue (t : Z) (timer : Timer) : bool := (due timer <=? t)%Z.

(** The event loop lets [dt] milliseconds pass and runs, oldest first, the
    timeouts that are due by then. *)
Definition elapse (dt : Z) (w : World) : World :=
  let t := (now w + dt)%Z in
  fold_left (fun acc timer => call (callback timer) acc)
            (filter (isDue t) (timers w))
            (withTimers (filter (fun timer => negb (isDue t timer)) (timers w))
                        (withNow t w)).

(** The older script (src/static/script.js) logs before it updates the
    indicator when the channel opens; the rest of its [connectWebSocket] is
    the same text. *)
Definition Legacy_ws_onopen (w : World) : World :=
  updateConnectionStatus true (log ">> 连接建立: 日志服务器已连接" w).

(** The click handler of the clear button. *)
Definition btnClearLog_click (w : World) : World :=
  log ">> 屏幕已清空" (withConsoleOutput [] w).

(** ** The status poll and the other commands *)

(** What [updateStatus] reads in the reply of GET /status: [data.status]
    ([None]: absent or not a string, which differs from each of the three
    names it is compared with) and whether [data.tasks] is there to read
    properties from. *)
Record StatusReply : Type := {
  jobStatus : option string;
  hasTasks : bool
}.

(** [updateStatus] after its [await], on the reply ([None]: the call
    failed, or it returned nothing and the handler returns at
    [if (!data) return]).  On a reply without [tasks] the read of
    [data.tasks.download_360p] throws before the busy flag is written, and
    the [catch] reports to the developer console only.  Otherwise the busy
    flag and the buttons are set (the status text and the task list are
    not part of the modelled page). *)
Definition updateStatus_result (data : option StatusReply) (w : World) : World :=
  match data with
  | Some reply =>
      if hasTasks reply
      then syncButtonDisabledStates
             (withIsTaskRunning
                (match jobStatus reply with
                 | Some status =>
                     negb (String.eqb status "IDLE")
                     && negb (String.eqb status "COMPLETED")
                     && negb (String.eqb status "ERROR")
                 | None => true
                 end)
                w)
      else w
  | None => w
  end.

(** The continue, stop, reset, retry-best, burn and subtitle commands touch
    the modelled page through [logToConsole] only: a notice or the failure
    line of their [catch]. *)
Definition command_logs (text : string) (w : World) : World := log text w.

(** ** Every stretch of script that runs without suspension *)

Inductive Stretch : Type :=
| SelectFiles (files : list File)
| UploadProgress (file : File) (event : ProgressEvent)
| UploadLoad (file : File) (status : Z) (data : UploadData)
| UploadFailed (file : File)
| UploadSettles (file : File) (s : Settlement)
| RefreshCalled
| RefreshResult (r : ApiResult)
| StartClicked
| StartResult (okLine : string) (r : ApiResult)
| ClearLogClicked
| SocketOpen
| SocketMessage (data : string)
| SocketClose
| SocketError
| StatusResult (reply : option StatusReply)
| CommandLogs (text : string)
| TimePasses (dt : Z).

(** [UploadLoad] and [UploadFailed] stop at the end of the XHR handler; the
    reaction to the settled promise is [UploadSettles]. *)
Definition run (s : Stretch) (w : World) : World :=
  match s with
  | SelectFiles files => worldOf (videoUploadInput_change files w)
  | UploadProgress file event => xhr_upload_onprogress file event w
  | UploadLoad file status data => fst (xhr_onload file status data w)
  | UploadFailed _ => fst (xhr_onerror w)
  | UploadSettles file s => worldOf (uploadSettled file s w)
  | RefreshCalled => worldOf (refreshLocalInputState w)
  | RefreshResult r => refreshLocalInputState_result r w
  | StartClicked => worldOf (btnStart_click w)
  | StartResult okLine r => worldOf (startResult okLine r w)
  | ClearLogClicked => btnClearLog_click w
  | SocketOpen => ws_onopen w
  | SocketMessage data => ws_onmessage data w
  | SocketClose => ws_onclose w
  | SocketError => ws_onerror w
  | StatusResult reply => updateStatus_result reply w
  | CommandLogs text => command_logs text w
  | TimePasses dt => elapse dt w
  end.

(** The stretches that can write the session: the file selection, the
    upload's events and a pull's result. *)
Definition writesSession (s : Stretch) : bool :=
  match s with
  | SelectFiles _ | UploadProgress _ _ | UploadLoad _ _ _
  | UploadSettles _ _ | RefreshResult _ => true
  | _ => false
  end.

(** The page before the script runs, with the console's initial children,
    and the page once the script's top level has run. *)
Definition page (children : Console) : World :=
  {| localInputState := {| mode := empty; fileName := ""; progress := ofZ 0 |};
     isTaskRunning := false; urlValue := ""; consoleOutput := children;
     btnStartDisabled := false; btnSelectVideoDisabled := false;
     btnSelectVideoText := TextChoose; selectedVideoName := "";
     online := false; sockets := 0; timers := []; now := 0 |}.

Definition boot (children : Console) : World :=
  setLocalInputState empty "" (ofZ 0) (connectWebSocket (page children)).

(** The page after a sequence of stretches, oldest first. *)
Definition runAll (trace : list Stretch) (w : World) : World :=
  fold_left (fun acc s => run s acc) trace w.

(** The progress values after each byte-progress callback of one upload. *)
Fixpoint progressTrace
    (file : File) (events : list ProgressEvent) (w : World) : list number :=
  match events with
  | [] => []
  | event :: rest =>
      let w' := xhr_upload_onprogress file event w in
      progress (localInputState w') :: progressTrace file rest w'
  end.

(** Byte counts of one transfer: one total, the loaded count never falls. *)
Definition sameTransfer (a b : ProgressEvent) : Prop :=
  total a = total b /\ (loaded a <= loaded b)%N.

(** ** Further handlers and what the page keeps true *)

(** The click handler of [btnSelectVideo]: whether it opens the file
    picker ([videoUploadInput.click()]). *)
Definition btnSelectVideo_click (w : World) : bool :=
  negb (btnSelectVideoDisabled w).

(** The session as every write of [setLocalInputState] in the script leaves
    it: progress an integer from 0 to 100, which is 0 with no file name when
    Empty, 100 when Ready and 0 when in Error. *)
Definition sessionOk (s : LocalInputState) : Prop :=
  exists p : Z,
    progress s = ofZ p /\ (0 <= p <= 100)%Z
    /\ match mode s with
       | empty => fileName s = "" /\ p = 0%Z
       | ready => p = 100%Z
       | error => p = 0%Z
       | uploading => True
       end.

(** What [renderLocalInputButton] shows for a session and a busy flag. *)
Definition viewInSync (w : World) : Prop :=
  let s := localInputState w in
  let busy := isTaskRunning w || Mode_eqb (mode s) uploading in
  btnStartDisabled w = busy
  /\ btnSelectVideoDisabled w = busy
  /\ btnSelectVideoText w
     = match mode s with
       | uploading => TextUploading (progress s)
       | ready => TextReplace
       | error => TextRetry
       | empty => TextChoose
       end
  /\ selectedVideoName w
     = match mode s with
       | ready | uploading =>
           if Js.truthy (fileName s) then fileName s else "未选择文件"
       | error => "上传失败"
       | empty => "未选择文件"
       end.

(** No two neighbouring entries of the console are both progress-like. *)
Fixpoint noAdjacentProgress (children : Console) : bool :=
  match children with
  | first :: (second :: _) as rest =>
      negb (isProgressLine first && isProgressLine second)
      && noAdjacentProgress rest
  | _ => true
  end.

(** How often the log channel closes in a sequence of stretches. *)
Definition closures (trace : list Stretch) : nat :=
  List.length
    (filter (fun s => match s with SocketClose => true | _ => false end) trace).

(** Time does not run backwards in a sequence of stretches. *)
Definition timeAdvances (trace : list Stretch) : Prop :=
  forall dt, In (TimePasses dt) trace -> (0 <= dt)%Z.

(** The stretches of the log channel's handlers. *)
Definition isSocketEvent (s : Stretch) : bool :=
  match s with
  | SocketOpen | SocketClose | SocketError => true
  | _ => false
  end.

(** Two pages with the same session, busy flag, buttons and texts. *)
Definition sameView (w w' : World) : Prop :=
  localInputState w' = localInputState w
  /\ isTaskRunning w' = isTaskRunning w
  /\ btnStartDisabled w' = btnStartDisabled w
  /\ btnSelectVideoDisabled w' = btnSelectVideoDisabled w
  /\ btnSelectVideoText w' = btnSelectVideoText w
  /\ selectedVideoName w' = selectedVideoName w.

(** The value [data] of [xhr.onload] before the status is looked at:
    [raw] is [xhr.responseText], [parsed] what [JSON.parse(raw)] gives
    ([None]: it throws).  An empty text is not parsed at all. *)
Definition xhr_data (raw : string) (parsed : option UploadData) : UploadData :=
  if Js.truthy raw
  then match parsed with
       | Some data => data
       | None => emptyObject
       end
  else emptyObject.

(** ** The other commands *)

(** What a command does with the outcome of its call: nothing on success
    (or the notice [okLine] when it has one), the failure line of its
    [catch] on an error. *)
Definition commandResult
    (okLine : option string) (failure : string) (r : ApiResult) (w : World)
    : Task :=
  match r with
  | Fulfilled _ =>
      match okLine with
      | Some text => Done (log text w)
      | None => Done w
      end
  | Rejected message => Done (log (failure ++ message)%string w)
  end.

(** The click handlers of [btnContinue], [btnStop] and [btnReset];
    [confirmed] is the answer to their [confirm(...)] dialogue. *)
Definition btnContinue_click (confirmed : bool) (w : World) : Task :=
  if negb confirmed then Done w
  else AwaitApi w {| endpoint := "/continue"; method := POST; body := NoBody |}
         (commandResult None "!! 继续任务失败: ").

Definition btnStop_click (confirmed : bool) (w : World) : Task :=
  if negb confirmed then Done w
  else AwaitApi w {| endpoint := "/stop"; method := POST; body := NoBody |}
         (commandResult None "!! 停止任务失败: ").

Definition btnReset_click (confirmed : bool) (w : World) : Task :=
  if negb confirmed then Done w
  else AwaitApi w {| endpoint := "/reset"; method := POST; body := NoBody |}
         (commandResult None "!! 重置失败: ").

(** The click handler of [btnBurn]. *)
Definition btnBurn_click (w : World) : Task :=
  AwaitApi w {| endpoint := "/burn"; method := POST; body := NoBody |}
    (commandResult None "!! 烧录失败: ").

(** The click handler of [btnUpload] (the subtitle upload); [files] is
    [fileInput.files]. *)
Definition btnUpload_click (files : list File) (w : World) : Task :=
  match files with
  | [] => Done w
  | file :: _ =>
      AwaitApi (log (">> 正在上传字幕: " ++ name file)%string w)
        {| endpoint := "/upload_sub"; method := POST; body := FormFile file |}
        (commandResult (Some ">> 字幕上传完成") "!! 字幕上传失败: ")
  end.

(** The body of the retry-best call: [{ url }] for a URL that is not empty
    once trimmed, else the empty object. *)
Inductive RetryBody : Type :=
| RetryUrl (url : string)
| RetryEmpty.

Definition btnRetryBest_payload (w : World) : RetryBody :=
  let url := Js.trim (urlValue w) in
  if Js.truthy url then RetryUrl url else RetryEmpty.

(** The outcome of the retry-best call: [resp?.message] ([None]: absent)
    or the message of the error. *)
Inductive RetryResult : Type :=
| RetryFulfilled (message : option string)
| RetryRejected (message : string).

(** The click handler of [btnRetryBest] after its [await]. *)
Definition btnRetryBest_result (r : RetryResult) (w : World) : World :=
  match r with
  | RetryFulfilled message =>
      log (">> " ++ match message with
                    | Some text =>
                        if Js.truthy text then text else "最佳视频重试已启动"
                    | None => "最佳视频重试已启动"
                    end)%string w
  | RetryRejected message =>
      log ("!! 重试最佳视频下载失败: " ++ message)%string w
  end.

(** A handler that, from the page [w] on and whatever the replies, writes
    nothing but the console. *)
Inductive OnlyLogs : World -> Task -> Prop :=
| OnlyLogs_done w children :
    OnlyLogs w (Done (withConsoleOutput children w))
| OnlyLogs_api w children req k :
    (forall r w', OnlyLogs w' (k r w')) ->
    OnlyLogs w (AwaitApi (withConsoleOutput children w) req k).

(** An entry of the reply of GET /files: null, or a value with its [name]
    ([None]: absent). *)
Inductive FileEntry : Type :=
| EntryNull
| Entry (entryName : option string).

(** The reply of GET /files as [updateFiles] meets it: falsy, truthy but
    no array, or an array. *)
Inductive FilesReply : Type :=
| FilesFalsy
| FilesNoArray
| FilesArray (entries : list FileEntry).

(** ** [apiCall]

    The values that [res.json()] yields are the platform's; the script
    reads four things from them, gathered in a [JsonReader]:
    [payload?.message], as the text [new Error] makes of it, when it is
    truthy; [data?.state] and [data.file?.name] when they are strings (the
    name of a reply is taken to be a string or absent, as in [StateReply]);
    and the value as the reply of GET /files. *)

Record JsonReader (J : Type) : Type := {
  jsonMessage : J -> option string;
  jsonState : J -> option string;
  jsonFileName : J -> option string;
  jsonFiles : J -> FilesReply
}.

Arguments jsonMessage {J}.
Arguments jsonState {J}.
Arguments jsonFileName {J}.
Arguments jsonFiles {J}.

(** The body of a response read as JSON: the parse error's message or the
    value. *)
Inductive BodyJson (J : Type) : Type :=
| JsonError (message : string)
| JsonValue (v : J).

Arguments JsonError {J}.
Arguments JsonValue {J}.

(** A response: [res.status], [res.headers.get("content-type")],
    [res.text()] and [res.json()]. *)
Record Response (J : Type) : Type := {
  resStatus : Z;
  resContentType : option string;
  resText : string;
  resJson : BodyJson J
}.

Arguments resStatus {J}.
Arguments resContentType {J}.
Arguments resText {J}.
Arguments resJson {J}.

(** [fetch] rejects (no response at all) or delivers a response. *)
Inductive Fetched (J : Type) : Type :=
| FetchFailed (message : string)
| FetchResponded (res : Response J).

Arguments FetchFailed {J}.
Arguments FetchResponded {J}.

(** The variable [payload] of [apiCall]: null, the parsed body, or the
    object [{ message: text }] made of a body that is not JSON. *)
Inductive Payload (J : Type) : Type :=
| PayloadNull
| PayloadJson (v : J)
| PayloadMessage (text : string).

Arguments PayloadNull {J}.
Arguments PayloadJson {J}.
Arguments PayloadMessage {J}.

Inductive Outcome (J : Type) : Type :=
| Returned (payload : Payload J)
| Thrown (message : string).

Arguments Returned {J}.
Arguments Thrown {J}.

(** [res.ok]: the status is from 200 to 299. *)
Definition resOk {J : Type} (res : Response J) : bool :=
  ((200 <=? resStatus res) && (resStatus res <=? 299))%Z.

(** [payload?.message] when truthy. *)
Definition payloadMessage {J : Type} (reader : JsonReader J) (payload : Payload J)
    : option string :=
  match payload with
  | PayloadNull => None
  | PayloadJson v => jsonMessage reader v
  | PayloadMessage text => if Js.truthy text then Some text else None
  end.

(** The end of [apiCall]: throw on a status that is not ok, else return. *)
Definition apiCall_finish {J : Type}
    (reader : JsonReader J) (res : Response J) (payload : Payload J) : Outcome J :=
  if negb (resOk res)
  then Thrown (match payloadMessage reader payload with
               | Some message => message
               | None => ("HTTP " ++ statusText (resStatus res))%string
               end)
  else Returned payload.

(** [apiCall] from the moment [fetch] settles. *)
Definition apiCall_settle {J : Type} (reader : JsonReader J) (fetched : Fetched J)
    : Outcome J :=
  match fetched with
  | FetchFailed message => Thrown message
  | FetchResponded res =>
      let contentType :=
        match resContentType res with Some t => t | None => "" end in
      if Js.includes "application/json" contentType
      then match resJson res with
           | JsonError message => Thrown message
           | JsonValue v => apiCall_finish reader res (PayloadJson v)
           end
      else apiCall_finish reader res
             (if Js.truthy (resText res) then PayloadMessage (resText res)
              else PayloadNull)
  end.

(** What [refreshLocalInputState] reads in a payload. *)
Definition stateReplyOf {J : Type} (reader : JsonReader J) (payload : Payload J)
    : option StateReply :=
  match payload with
  | PayloadNull => None
  | PayloadJson v =>
      Some {| state := jsonState reader v; file_name := jsonFileName reader v |}
  | PayloadMessage _ => Some {| state := None; file_name := None |}
  end.

(** The outcome of [apiCall] as [refreshLocalInputState] meets it. *)
Definition pullResult {J : Type} (reader : JsonReader J) (o : Outcome J)
    : ApiResult :=
  match o with
  | Returned payload => Fulfilled (stateReplyOf reader payload)
  | Thrown message => Rejected message
  end.

(** ** The file list *)

(** The characters that [encodeURIComponent] leaves as they are: letters,
    digits and [- _ . ! ~ * ' ( )]. *)
Definition isUnreserved (c : ascii) : bool :=
  let n := nat_of_ascii c in
  ((65 <=? n)%nat && (n <=? 90)%nat) || ((97 <=? n)%nat && (n <=? 122)%nat)
  || ((48 <=? n)%nat && (n <=? 57)%nat)
  || existsb (Nat.eqb n) [45; 95; 46; 33; 126; 42; 39; 40; 41].

Definition hexDigit (n : nat) : ascii :=
  nth n (list_ascii_of_string "0123456789ABCDEF") "0"%char.

(** [%XX] for a byte. *)
Definition percentEncoded (c : ascii) : string :=
  String "%" (String (hexDigit (nat_of_ascii c / 16))
                     (String (hexDigit (nat_of_ascii c mod 16)) EmptyString)).

(** [encodeURIComponent(s)] on the UTF-8 bytes of [s]. *)
Fixpoint encodeURIComponent (s : string) : string :=
  match s with
  | EmptyString => EmptyString
  | String c rest =>
      if isUnreserved c then String c (encodeURIComponent rest)
      else (percentEncoded c ++ encodeURIComponent rest)%string
  end.

(** The [href] of the download link of a file; [base] is [API_BASE]. *)
Definition downloadLink (base file_name : string) : string :=
  (base ++ "/download/" ++ encodeURIComponent file_name)%string.

(** The value of a hexadecimal digit (by which the escapes are shown to
    lose nothing). *)
Definition hexValue (c : ascii) : nat :=
  let n := nat_of_ascii c in
  if ((48 <=? n)%nat && (n <=? 57)%nat) then n - 48 else n - 55.

(** A row of the file list: the name shown and the link's [href]. *)
Record FileRow : Type := { rowName : string; rowHref : string }.

(** The rows made by [files.forEach]: reading [f.name] of a null entry
    throws and ends the loop with the rows made so far.  An absent name
    shows as the empty text and is encoded as "undefined". *)
Fixpoint rowsOf (base : string) (entries : list FileEntry) : list FileRow :=
  match entries with
  | [] => []
  | EntryNull :: _ => []
  | Entry entryName :: rest =>
      {| rowName := match entryName with Some n => n | None => "" end;
         rowHref := downloadLink base
                      (match entryName with Some n => n | None => "undefined" end) |}
      :: rowsOf base rest
  end.

(** [updateFiles] after its [await], on the rows of [fileList]: a falsy
    reply returns at once; else the list is emptied and filled from the
    reply.  A failed call leaves the list as it is. *)
Definition updateFiles_result
    (base : string) (reply : option FilesReply) (fileList : list FileRow)
    : list FileRow :=
  match reply with
  | None => fileList
  | Some FilesFalsy => fileList
  | Some FilesNoArray => []
  | Some (FilesArray entries) => rowsOf base entries
  end.

(** The outcome of [apiCall] as [updateFiles] meets it: a thrown error is
    caught and reported to the developer console only. *)
Definition filesReplyOf {J : Type} (reader : JsonReader J) (o : Outcome J)
    : option FilesReply :=
  match o with
  | Returned PayloadNull => Some FilesFalsy
  | Returned (PayloadJson v) => Some (jsonFiles reader v)
  | Returned (PayloadMessage _) => Some FilesNoArray
  | Thrown _ => None
  end.

(** ** The older script (src/static/script.js): selection and start

    In the older page the file is uploaded by the start command itself:
    the change handler only remembers the file in [uploadedVideoFile]. *)

Module LegacyPage.

Record Page : Type := {
  uploadedVideoFile : option File;
  urlValue : string;                  (* elUrl.value *)
  selectedVideoName : string;         (* selectedVideoName.textContent *)
  consoleOutput : Console
}.

Definition withFile (f : option File) (label : string) (p : Page) : Page :=
  {| uploadedVideoFile := f; urlValue := urlValue p;
     selectedVideoName := label; consoleOutput := consoleOutput p |}.

Definition withUrl (v : string) (p : Page) : Page :=
  {| uploadedVideoFile := uploadedVideoFile p; urlValue := v;
     selectedVideoName := selectedVideoName p;
     consoleOutput := consoleOutput p |}.

Definition log (text : string) (p : Page) : Page :=
  {| uploadedVideoFile := uploadedVideoFile p; urlValue := urlValue p;
     selectedVideoName := selectedVideoName p;
     consoleOutput := Legacy.logToConsole text (consoleOutput p) |}.

(** The change handler of [videoUploadInput]. *)
Definition videoUploadInput_change (files : list File) (p : Page) : Page :=
  match files with
  | file :: _ =>
      log (">> 已选择本地文件: " ++ name file)%string
          (withUrl "" (withFile (Some file) (name file) p))
  | [] => withFile None "未选择文件" p
  end.

(** The user edits the URL field, which then holds [v], and the input
    handler of [elUrl] runs. *)
Definition elUrl_input (v : string) (p : Page) : Page :=
  let p1 := withUrl v p in
  if Js.truthy (Js.trim v) then withFile None "未选择文件" p1 else p1.

(** What the start handler reads in the reply to the upload:
    [uploadResult] is null, or a value whose [filename] the template
    renders as [filenameText] ("undefined" when absent). *)
Inductive UploadReply : Type :=
| ReplyNull
| ReplyValue (filenameText : string).

(** The outcome of the older [apiCall]; a rejection has been logged by
    [apiCall] itself before the caller sees it. *)
Inductive Result : Type :=
| Fulfilled (reply : UploadReply)
| Rejected (message : string).

Inductive Task : Type :=
| Done (p : Page)
| Await (p : Page) (req : Request) (k : Result -> Page -> Task).

Definition worldOf (t : Task) : Page :=
  match t with
  | Done p => p
  | Await p _ _ => p
  end.

Definition issued (t : Task) : option Request :=
  match t with
  | Done _ => None
  | Await _ req _ => Some req
  end.

(** The [catch] of [apiCall]: the error is logged and thrown again. *)
Definition apiFailed (path message : string) (p : Page) : Page :=
  log ("!! API错误: " ++ path ++ " " ++ message)%string p.

(** The start handler's [catch]. *)
Definition startFailed (message : string) (p : Page) : Page :=
  log ("!! 上传或启动失败: " ++ message)%string p.

(** After [await apiCall("/start_local")]: on success the selection is
    cleared. *)
Definition afterStartLocal (r : Result) (p : Page) : Task :=
  match r with
  | Fulfilled _ => Done (withFile None "未选择文件" p)
  | Rejected message =>
      Done (startFailed message (apiFailed "/start_local" message p))
  end.

(** After [await apiCall("/upload_video", "POST", formData)];
    [nullReadText] is the message of the TypeError that reading
    [filename] of null throws. *)
Definition afterUpload (nullReadText : string) (r : Result) (p : Page) : Task :=
  match r with
  | Rejected message =>
      Done (startFailed message (apiFailed "/upload_video" message p))
  | Fulfilled ReplyNull => Done (startFailed nullReadText p)
  | Fulfilled (ReplyValue filenameText) =>
      Await (log (">> 文件上传成功: " ++ filenameText)%string p)
        {| endpoint := "/start_local"; method := POST; body := NoBody |}
        afterStartLocal
  end.

(** After [await apiCall("/start", "POST", { url })], which no [try]
    surrounds. *)
Definition afterStart (r : Result) (p : Page) : Task :=
  match r with
  | Fulfilled _ => Done p
  | Rejected message => Done (apiFailed "/start" message p)
  end.

(** The click handler of [btnStart]. *)
Definition btnStart_click (nullReadText : string) (p : Page) : Task :=
  let url := Js.trim (urlValue p) in
  match uploadedVideoFile p with
  | None =>
      if Js.truthy url
      then Await p {| endpoint := "/start"; method := POST; body := JsonUrl url |}
             afterStart
      else Done (log "!! 错误: 请输入视频链接或选择本地文件" p)
  | Some file =>
      Await (log (">> 正在上传本地文件: " ++ name file ++ "...")%string p)
        {| endpoint := "/upload_video"; method := POST; body := FormFile file |}
        (afterUpload nullReadText)
  end.

(** The stretches of the older script that touch the selection, the URL
    field or the console ([Logged]: the other handlers, which only log). *)
Inductive Stretch : Type :=
| SelectFiles (files : list File)
| UrlEdited (v : string)
| StartClicked
| UploadReplied (r : Result)
| StartLocalReplied (r : Result)
| StartReplied (r : Result)
| Logged (text : string).

Definition run (nullReadText : string) (s : Stretch) (p : Page) : Page :=
  match s with
  | SelectFiles files => videoUploadInput_change files p
  | UrlEdited v => elUrl_input v p
  | StartClicked => worldOf (btnStart_click nullReadText p)
  | UploadReplied r => worldOf (afterUpload nullReadText r p)
  | StartLocalReplied r => worldOf (afterStartLocal r p)
  | StartReplied r => worldOf (afterStart r p)
  | Logged text => log text p
  end.

Definition runAll (nullReadText : string) (trace : list Stretch) (p : Page) : Page :=
  fold_left (fun acc s => run nullReadText s acc) trace p.

(** The page when the script starts: nothing selected, the URL field as the
    page has it. *)
Definition start (url label : string) (children : Console) : Page :=
  {| uploadedVideoFile := None; urlValue := url; selectedVideoName := label;
     consoleOutput := children |}.

End LegacyPage.

(** * Properties *)

(** ** The log consolidator *)

Section ConsoleFacts.

Implicit Types (children : Console) (line text : string).

Lemma lastElementChild_snoc children line :
  lastElementChild (children ++ [line]) = Some line.
Proof.
  induction children as [|entry rest IH]; [reflexivity|].
  cbn [app lastElementChild]. rewrite IH.
  destruct (rest ++ [line]) eqn:E; [|reflexivity].
  now destruct rest.
Qed.

Lemma setLastTextContent_snoc children previous line :
  setLastTextContent line (children ++ [previous]) = children ++ [line].
Proof.
  induction children as [|entry rest IH]; [reflexivity|].
  cbn [app setLastTextContent]. rewrite IH.
  destruct (rest ++ [previous]) eqn:E; [|reflexivity].
  now destruct rest.
Qed.

Lemma children_snoc_or_nil children :
  children = [] \/ exists rest entry, children = rest ++ [entry].
Proof.
  destruct children as [|first others]; [now left | right].
  destruct (exists_last (l := first :: others)) as (rest & entry & E);
    [discriminate | eauto].
Qed.

Lemma trailingIsProgress_snoc children line :
  trailingIsProgress (children ++ [line]) = isProgressLine line.
Proof. unfold trailingIsProgress. now rewrite lastElementChild_snoc. Qed.

Lemma logLine_empty children : logLine children "" = children.
Proof. reflexivity. Qed.

(** A non-empty line rewrites the trailing entry when both are
    progress-like and is appended otherwise. *)
Lemma logLine_cases children line :
  Js.truthy line = true ->
  logLine children line =
    if isProgressLine line && trailingIsProgress children
    then setLastTextContent line children
    else children ++ [line].
Proof.
  intros Hline. unfold logLine, trailingIsProgress, appendChild.
  rewrite Hline. cbn [negb].
  destruct (lastElementChild children); [reflexivity|].
  now rewrite andb_false_r.
Qed.

Lemma logLine_collapse children previous line :
  Js.truthy line = true ->
  isProgressLine previous = true ->
  isProgressLine line = true ->
  logLine (children ++ [previous]) line = children ++ [line].
Proof.
  intros Hline Hprev Hprog.
  rewrite logLine_cases, trailingIsProgress_snoc, Hprev, Hprog by assumption.
  apply setLastTextContent_snoc.
Qed.

Lemma logLine_discrete children line :
  Js.truthy line = true ->
  isProgressLine line = false ->
  logLine children line = children ++ [line].
Proof.
  intros Hline Hdisc. now rewrite logLine_cases, Hdisc by assumption.
Qed.

Lemma logLine_first_progress children line :
  Js.truthy line = true ->
  trailingIsProgress children = false ->
  logLine children line = children ++ [line].
Proof.
  intros Hline Htrail.
  now rewrite logLine_cases, Htrail, andb_false_r by assumption.
Qed.

Lemma trailingIsProgress_logLine children line :
  Js.truthy line = true ->
  trailingIsProgress (logLine children line) = isProgressLine line.
Proof.
  intros Hline. rewrite logLine_cases by assumption.
  destruct (isProgressLine line && trailingIsProgress children) eqn:E.
  - destruct (children_snoc_or_nil children) as [->|(rest & entry & ->)].
    + now rewrite andb_false_r in E.
    + now rewrite setLastTextContent_snoc, trailingIsProgress_snoc.
  - apply trailingIsProgress_snoc.
Qed.

(** Empty pieces are skipped, so only the non-empty lines matter. *)
Lemma fold_logLine_filter lines children :
  fold_left logLine lines children
  = fold_left logLine (filter Js.truthy lines) children.
Proof.
  revert children.
  induction lines as [|line rest IH]; intros children; [reflexivity|].
  cbn [fold_left filter].
  destruct line as [|c line]; cbn [Js.truthy]; [apply IH|].
  cbn [fold_left]. apply IH.
Qed.

Lemma logToConsole_lines text children :
  logToConsole text children = fold_left logLine (Js.split text) children.
Proof. unfold logToConsole. now destruct text. Qed.

Lemma feed_lines chunks children :
  feed chunks children = fold_left logLine (linesOf chunks) children.
Proof.
  unfold feed, linesOf. revert children.
  induction chunks as [|text rest IH]; intros children; [reflexivity|].
  cbn [fold_left flat_map]. rewrite IH, logToConsole_lines.
  rewrite filter_app, fold_left_app. f_equal. apply fold_logLine_filter.
Qed.

Lemma linesOf_app before after :
  linesOf (before ++ after) = linesOf before ++ linesOf after.
Proof. unfold linesOf. now rewrite flat_map_app, filter_app. Qed.

Lemma feed_app before after children :
  feed (before ++ after) children = feed after (feed before children).
Proof. unfold feed. apply fold_left_app. Qed.

Lemma linesOf_truthy chunks : Forall (fun l => Js.truthy l = true) (linesOf chunks).
Proof.
  unfold linesOf. apply Forall_forall. intros l Hl.
  now apply filter_In in Hl.
Qed.

(** The older script's loop is the same function. *)
Lemma Legacy_logLine_same children line :
  Legacy.logLine children line = logLine children line.
Proof.
  unfold Legacy.logLine, logLine, isProgressLine.
  destruct (Js.truthy line); cbn [negb]; [|reflexivity].
  now destruct (lastElementChild children).
Qed.

Lemma Legacy_logToConsole_same text children :
  Legacy.logToConsole text children = logToConsole text children.
Proof.
  unfold Legacy.logToConsole, logToConsole.
  destruct (Js.truthy text); cbn [negb]; [|reflexivity].
  revert children.
  induction (Js.split text) as [|line rest IH]; intros children;
    [reflexivity|].
  cbn [fold_left]. now rewrite Legacy_logLine_same, IH.
Qed.

Lemma last_cons_default (x : string) (l : list string) (d d' : string) :
  last (x :: l) d = last (x :: l) d'.
Proof.
  revert x. induction l as [|y l IH]; intros x; [reflexivity|].
  change (last (y :: l) d = last (y :: l) d'). apply IH.
Qed.

(** A run of progress-like lines after a progress-like trailing entry
    rewrites that entry. *)
Lemma fold_logLine_run_inside run children previous :
  Forall (fun l => Js.truthy l = true) run ->
  forallb isProgressLine run = true ->
  isProgressLine previous = true ->
  fold_left logLine run (children ++ [previous])
  = children ++ [last run previous].
Proof.
  revert previous.
  induction run as [|line rest IH]; intros previous Hne Hall Hprev;
    [reflexivity|].
  cbn [forallb] in Hall. apply andb_true_iff in Hall as [Hline Hrest].
  inversion Hne; subst.
  cbn [fold_left]. rewrite logLine_collapse by assumption.
  rewrite IH by assumption.
  destruct rest as [|next rest]; [reflexivity|].
  change (last (line :: next :: rest) previous)
    with (last (next :: rest) previous).
  f_equal. f_equal. apply last_cons_default.
Qed.

(** A run that starts after a discrete entry, or in the empty console,
    adds one entry, which ends up holding the run's last line. *)
Lemma fold_logLine_run run children :
  Forall (fun l => Js.truthy l = true) run ->
  forallb isProgressLine run = true ->
  run <> [] ->
  trailingIsProgress children = false ->
  fold_left logLine run children = children ++ [last run ""].
Proof.
  intros Hne Hall Hrun Htrail.
  destruct run as [|line rest]; [contradiction|].
  cbn [forallb] in Hall. apply andb_true_iff in Hall as [Hline Hrest].
  inversion Hne; subst.
  cbn [fold_left]. rewrite logLine_first_progress by assumption.
  rewrite fold_logLine_run_inside by assumption.
  destruct rest as [|next rest]; [reflexivity|].
  change (last (line :: next :: rest) "") with (last (next :: rest) "").
  f_equal. f_equal. apply last_cons_default.
Qed.

Lemma trailingIsProgress_fold lines children :
  Forall (fun l => Js.truthy l = true) lines ->
  trailingIsProgress (fold_left logLine lines children)
  = match lines with
    | [] => trailingIsProgress children
    | _ => isProgressLine (last lines "")
    end.
Proof.
  revert children.
  induction lines as [|line rest IH]; intros children Hne; [reflexivity|].
  inversion Hne; subst. cbn [fold_left]. rewrite IH by assumption.
  destruct rest; [|reflexivity].
  now apply trailingIsProgress_logLine.
Qed.

(** Entries added by a sequence of non-empty lines: one per discrete line
    and one per run of progress-like lines that does not continue the
    trailing entry. *)
Lemma length_fold_logLine lines children :
  Forall (fun l => Js.truthy l = true) lines ->
  List.length (fold_left logLine lines children)
  = List.length children + countDiscrete lines
    + countRunsFrom (trailingIsProgress children) lines.
Proof.
  revert children.
  induction lines as [|line rest IH]; intros children Hne.
  - cbn. lia.
  - inversion Hne; subst. cbn [fold_left].
    rewrite IH, trailingIsProgress_logLine by assumption.
    unfold countDiscrete. cbn [filter countRunsFrom]. unfold isDiscrete at 2.
    rewrite logLine_cases by assumption.
    destruct (isProgressLine line) eqn:Hp; cbn [negb andb].
    + destruct (trailingIsProgress children) eqn:Ht.
      * destruct (children_snoc_or_nil children) as [->|(r & e & ->)];
          [discriminate|].
        rewrite setLastTextContent_snoc, !length_app. cbn. lia.
      * rewrite length_app. cbn. lia.
    + rewrite length_app. cbn [List.length]. lia.
Qed.

(** Only the trailing entry is read or rewritten: the entries before it
    stay as they are. *)
Lemma logLine_prefix children entries line :
  entries <> [] ->
  logLine (children ++ entries) line = children ++ logLine entries line
  /\ logLine entries line <> [].
Proof.
  intros Hne.
  destruct (children_snoc_or_nil entries) as [->|(rest & entry & ->)];
    [contradiction|].
  destruct line as [|c line]; [split; [reflexivity | now destruct rest]|].
  rewrite app_assoc, !logLine_cases, !trailingIsProgress_snoc by reflexivity.
  destruct (isProgressLine (String c line) && isProgressLine entry).
  - rewrite !setLastTextContent_snoc, app_assoc. split; [reflexivity|].
    now destruct rest.
  - rewrite !app_assoc. split; [reflexivity|].
    now destruct (rest ++ [entry]).
Qed.

Lemma fold_logLine_prefix lines children entries :
  entries <> [] ->
  fold_left logLine lines (children ++ entries)
  = children ++ fold_left logLine lines entries.
Proof.
  revert entries.
  induction lines as [|line rest IH]; intros entries Hne; [reflexivity|].
  cbn [fold_left].
  destruct (logLine_prefix children entries line Hne) as [-> Hne'].
  now apply IH.
Qed.

Lemma countRunsFrom_le inRun lines :
  countRunsFrom inRun lines <= countRunsFrom false lines.
Proof.
  destruct lines as [|line rest]; [reflexivity|].
  cbn [countRunsFrom]. destruct (isProgressLine line), inRun; lia.
Qed.

End ConsoleFacts.

Lemma countRunsFrom_none inRun lines :
  existsb isProgressLine lines = false -> countRunsFrom inRun lines = 0.
Proof.
  revert inRun. induction lines as [|line rest IH]; intros inRun H;
    [reflexivity|].
  cbn [existsb] in H. apply orb_false_iff in H as [Hline Hrest].
  cbn [countRunsFrom]. rewrite Hline. now apply IH.
Qed.

Lemma countRuns_some lines :
  existsb isProgressLine lines = true -> 1 <= countRuns lines.
Proof.
  unfold countRuns. induction lines as [|line rest IH]; intros H;
    [discriminate|].
  cbn [existsb] in H. cbn [countRunsFrom].
  destruct (isProgressLine line); [lia|]. now apply IH.
Qed.

Example logToConsole_scenario :
  feed [Js.line "50%"; Js.line "51%"; Js.line "done"; Js.line "done"] []
  = ["51%"; "done"; "done"].
Proof. reflexivity. Qed.

Example logToConsole_one_chunk :
  logToConsole (Js.line "a" ++ Js.line "10% 3it/s" ++ Js.line "" ++ "20%")%string
               ["x"]
  = ["x"; "a"; "20%"].
Proof. reflexivity. Qed.

(** C2. The consolidator handles the non-empty lines of its chunks one at a
    time; a progress-like line (one with a percent sign or the token it/s)
    that follows a progress-like trailing entry replaces that entry, a
    discrete line is always appended, also when it repeats the entry before
    it; feeding "50%", "51%", "done", "done" (one line per chunk) to the empty
    console leaves ["51%"; "done"; "done"]; no entry but the trailing one is
    ever rewritten; and a run of progress-like lines that follows a discrete
    line, or starts the input on a console whose trailing entry is not
    progress-like (the empty console for one), adds exactly one entry, which
    holds the last line of the run. *)
Theorem logToConsole_collapses_progress_runs :
  (forall chunks children,
      feed chunks children = fold_left logLine (linesOf chunks) children)
  /\ (forall children previous line,
        Js.truthy line = true ->
        isProgressLine previous = true ->
        isProgressLine line = true ->
        logLine (children ++ [previous]) line = children ++ [line])
  /\ (forall children line,
        Js.truthy line = true ->
        isDiscrete line = true ->
        logLine children line = children ++ [line])
  /\ feed [Js.line "50%"; Js.line "51%"; Js.line "done"; Js.line "done"] []
     = ["51%"; "done"; "done"]
  /\ (forall chunks children entry,
        feed chunks (children ++ [entry]) = children ++ feed chunks [entry])
  /\ (forall children before run,
        linesOf before = [] /\ trailingIsProgress children = false
        \/ linesOf before <> [] /\ isDiscrete (last (linesOf before) "") = true ->
        linesOf run <> [] ->
        forallb isProgressLine (linesOf run) = true ->
        feed (before ++ run) children
        = feed before children ++ [last (linesOf run) ""]).
Proof.
  split; [exact feed_lines|].
  split; [exact logLine_collapse|].
  split.
  { intros children line Hline Hdisc. apply logLine_discrete; [assumption|].
    unfold isDiscrete in Hdisc. now destruct (isProgressLine line). }
  split; [reflexivity|].
  split.
  { intros chunks children entry. rewrite !feed_lines.
    now apply fold_logLine_prefix. }
  intros children before run Hbefore Hrun Hall.
  rewrite feed_app, (feed_lines run).
  apply fold_logLine_run; try assumption; [apply linesOf_truthy|].
  rewrite feed_lines, trailingIsProgress_fold by apply linesOf_truthy.
  destruct Hbefore as [[-> Htrail] | [Hlines Hdisc]]; [exact Htrail|].
  destruct (linesOf before) as [|first others]; [contradiction|].
  unfold isDiscrete in Hdisc.
  now destruct (isProgressLine (last (first :: others) "")).
Qed.

Lemma logToConsole_collapses_progress_runs_witness :
  logLine (["start"] ++ ["50% 2.1it/s"]) "51% 2.0it/s"
  = ["start"] ++ ["51% 2.0it/s"]
  /\ logLine ["done"] "done" = ["done"] ++ ["done"]
  /\ feed ([Js.line "start"] ++ ["1%"; Js.line "2%" ++ Js.line "3%"]%string) []
     = feed [Js.line "start"] []
       ++ [last (linesOf ["1%"; Js.line "2%" ++ Js.line "3%"]%string) ""].
Proof.
  destruct logToConsole_collapses_progress_runs
    as (_ & Hcollapse & Happend & _ & _ & Hrun).
  split; [apply Hcollapse; reflexivity|].
  split; [apply Happend; reflexivity|].
  apply (Hrun []);
    [right; split; [discriminate | reflexivity] | discriminate | reflexivity].
Defined.

(** C3, as the code has it.  Fed to the empty console, a sequence of chunks
    leaves as many entries as it has discrete lines plus maximal runs of
    consecutive progress-like lines: every run, whether a discrete line or
    the end of the input ends it, counts once.  The count "discrete lines
    plus one if there is a progress-like line" is right exactly for inputs
    with at most one run. *)
Theorem console_entries_count :
  (forall chunks,
      List.length (feed chunks [])
      = countDiscrete (linesOf chunks) + countRuns (linesOf chunks))
  /\ (forall chunks,
        countRuns (linesOf chunks) <= 1 <->
        List.length (feed chunks []) = claimedEntries (linesOf chunks)).
Proof.
  assert (Hcount : forall chunks,
             List.length (feed chunks [])
             = countDiscrete (linesOf chunks) + countRuns (linesOf chunks)).
  { intros chunks.
    rewrite feed_lines, length_fold_logLine by apply linesOf_truthy.
    reflexivity. }
  split; [exact Hcount|].
  intros chunks. rewrite Hcount. unfold claimedEntries.
  destruct (existsb isProgressLine (linesOf chunks)) eqn:E.
  - pose proof (countRuns_some _ E). lia.
  - unfold countRuns. rewrite (countRunsFrom_none _ _ E). lia.
Qed.

(** C3 as worded fails: "1%", "a", "2%" leaves three entries, where one
    discrete line plus one gives two. *)
Lemma console_entries_not_claimed :
  let chunks := [Js.line "1%"; Js.line "a"; Js.line "2%"] in
  feed chunks [] = ["1%"; "a"; "2%"]
  /\ countDiscrete (linesOf chunks) = 1
  /\ List.length (feed chunks []) <> claimedEntries (linesOf chunks)
  /\ List.length (feed chunks []) <> countDiscrete (linesOf chunks) + 1
  /\ List.length (feed chunks []) <> countDiscrete (linesOf chunks) + 0.
Proof. cbv zeta. repeat split; vm_compute; discriminate. Qed.

(** ** Rounding to binary64 is monotone *)

Section NumberFacts.

Local Open Scope Q_scope.

Lemma roundHalfEven_bounds q :
  (Qfloor q <= roundHalfEven q <= Qfloor q + 1)%Z.
Proof.
  unfold roundHalfEven.
  destruct (q - inject_Z (Qfloor q) ?= 1 # 2); [destruct (Z.even _)|..]; lia.
Qed.

Lemma roundHalfEven_mono q1 q2 :
  q1 <= q2 -> (roundHalfEven q1 <= roundHalfEven q2)%Z.
Proof.
  intros Hle.
  pose proof (Qfloor_resp_le _ _ Hle) as Hf.
  pose proof (roundHalfEven_bounds q1) as H1.
  pose proof (roundHalfEven_bounds q2) as H2.
  destruct (Z.eq_dec (Qfloor q1) (Qfloor q2)) as [E|NE]; [|lia].
  clear H1 H2. unfold roundHalfEven. rewrite <- E.
  destruct (Qcompare_spec (q1 - inject_Z (Qfloor q1)) (1 # 2)) as [A|A|A];
  destruct (Qcompare_spec (q2 - inject_Z (Qfloor q1)) (1 # 2)) as [B|B|B];
    try (destruct (Z.even (Qfloor q1))); try lia; exfalso; lra.
Qed.

Lemma roundHalfEven_ge q k : inject_Z k <= q -> (k <= roundHalfEven q)%Z.
Proof.
  intros H. pose proof (Qfloor_resp_le _ _ H) as Hf. rewrite Qfloor_Z in Hf.
  pose proof (roundHalfEven_bounds q). lia.
Qed.

Lemma roundHalfEven_le q k : q <= inject_Z k -> (roundHalfEven q <= k)%Z.
Proof.
  intros H. pose proof (Qfloor_resp_le _ _ H) as Hf. rewrite Qfloor_Z in Hf.
  pose proof (roundHalfEven_bounds q) as Hb.
  destruct (Z.eq_dec (Qfloor q) k) as [E|NE]; [|lia].
  unfold roundHalfEven. rewrite E.
  destruct (Qcompare_spec (q - inject_Z k) (1 # 2)) as [A|A|A];
    [exfalso; lra | lia | exfalso; lra].
Qed.

Lemma two_power_pos (e : Z) : 0 < 2 ^ e.
Proof. apply Qpower_0_lt. reflexivity. Qed.

Lemma two_power_succ (e : Z) : 2 ^ (e + 1) == 2 * 2 ^ e.
Proof. rewrite Qpower_plus by discriminate. change (2 ^ 1) with 2. ring. Qed.

Lemma two_power_lt_inv (a b : Z) : 2 ^ a < 2 ^ b -> (a < b)%Z.
Proof. intros H. apply (Qpower_lt_compat_l_inv 2); [exact H | reflexivity]. Qed.

Lemma two_power_le (a b : Z) : (a <= b)%Z -> 2 ^ a <= 2 ^ b.
Proof. intros H. apply Qpower_le_compat_l; [exact H | discriminate]. Qed.

Lemma ilog2_spec q : 0 < q -> 2 ^ ilog2 q <= q /\ q < 2 ^ (ilog2 q + 1).
Proof.
  intros Hq. destruct q as [n d]. unfold ilog2. cbn [Qnum Qden].
  assert (Hn : (0 < n)%Z).
  { unfold Qlt in Hq. cbn in Hq. lia. }
  set (a := Z.log2 n). set (b := Z.log2 (Zpos d)).
  destruct (Z.log2_spec n Hn) as [Ha1 Ha2]. fold a in Ha1, Ha2.
  destruct (Z.log2_spec (Zpos d) (Pos2Z.is_pos d)) as [Hb1 Hb2].
  fold b in Hb1, Hb2.
  assert (Ha0 : (0 <= a)%Z) by apply Z.log2_nonneg.
  assert (Hb0 : (0 <= b)%Z) by apply Z.log2_nonneg.
  assert (HA : inject_Z (2 ^ a) == 2 ^ a) by (apply Zpower_Qpower; lia).
  assert (HB : inject_Z (2 ^ b) == 2 ^ b) by (apply Zpower_Qpower; lia).
  assert (Hk : 2 ^ (a - b) * 2 ^ b == 2 ^ a).
  { rewrite <- Qpower_plus by discriminate. now replace (a - b + b)%Z with a by lia. }
  pose proof (two_power_pos a) as PA. pose proof (two_power_pos b) as PB.
  pose proof (two_power_pos (a - b)) as PK.
  assert (Hnd : n # d == inject_Z n / inject_Z (Zpos d)) by apply Qmake_Qdiv.
  assert (Hd : 0 < inject_Z (Zpos d)) by (unfold Qlt; cbn; lia).
  assert (Qa1 : 2 ^ a <= inject_Z n) by (rewrite <- HA, <- Zle_Qle; lia).
  assert (Qa2 : inject_Z n < 2 * 2 ^ a).
  { rewrite <- HA. change 2 with (inject_Z 2) at 1. rewrite <- inject_Z_mult, <- Zlt_Qlt.
    rewrite Z.pow_succ_r in Ha2 by lia. lia. }
  assert (Qb1 : 2 ^ b <= inject_Z (Zpos d)) by (rewrite <- HB, <- Zle_Qle; lia).
  assert (Qb2 : inject_Z (Zpos d) < 2 * 2 ^ b).
  { rewrite <- HB. change 2 with (inject_Z 2) at 1. rewrite <- inject_Z_mult, <- Zlt_Qlt.
    rewrite Z.pow_succ_r in Hb2 by lia. lia. }
  set (N := inject_Z n) in *. set (D := inject_Z (Zpos d)) in *.
  set (A := 2 ^ a) in *. set (B := 2 ^ b) in *. set (K := 2 ^ (a - b)) in *.
  assert (Hq' : (n # d) * D == N).
  { rewrite Hnd. field. intros E. rewrite E in Hd. now apply Qlt_irrefl in Hd. }
  set (q := n # d) in *.
  assert (Hlt : q < 2 * K).
  { apply Qnot_le_lt. intros C. 
    assert (2 * K * D <= q * D) by (apply Qmult_le_compat_r; lra).
    assert (K * B <= K * D) by (apply Qmult_le_l; lra).
    lra. }
  assert (Hgt : K < 2 * q).
  { apply Qnot_le_lt. intros C.
    assert (2 * q * D <= K * D) by (apply Qmult_le_compat_r; lra).
    assert (K * D < K * (2 * B)) by (apply Qmult_lt_l; lra).
    lra. }
  destruct (Qle_bool K q) eqn:E.
  - apply Qle_bool_iff in E. split; [exact E|].
    rewrite two_power_succ. fold K. exact Hlt.
  - assert (q < K).
    { apply Qnot_le_lt. intros C. apply Qle_bool_iff in C. congruence. }
    replace (a - b - 1 + 1)%Z with (a - b)%Z by lia. fold K.
    split; [|assumption].
    assert (K == 2 * 2 ^ (a - b - 1)).
    { unfold K. rewrite <- two_power_succ. now replace (a - b - 1 + 1)%Z with (a - b)%Z by lia. }
    lra.
Qed.

Lemma ilog2_mono q1 q2 : 0 < q1 -> q1 <= q2 -> (ilog2 q1 <= ilog2 q2)%Z.
Proof.
  intros H1 H12.
  destruct (ilog2_spec q1 H1) as [L1 _].
  destruct (ilog2_spec q2) as [_ U2]; [lra|].
  assert (H : 2 ^ ilog2 q1 < 2 ^ (ilog2 q2 + 1)) by lra.
  apply two_power_lt_inv in H. lia.
Qed.

Lemma rne_pos q :
  0 < q -> rne q == inject_Z (roundHalfEven (q / 2 ^ (ilog2 q - 52))) * 2 ^ (ilog2 q - 52).
Proof.
  intros H. unfold rne.
  destruct (Qle_bool q 0) eqn:E; [|reflexivity].
  apply Qle_bool_iff in E. lra.
Qed.

Lemma rne_nonpos q : q <= 0 -> rne q = 0.
Proof. intros H. unfold rne. apply Qle_bool_iff in H. now rewrite H. Qed.

(** The significand lies between 2^52 and 2^53. *)
Lemma rne_significand q :
  0 < q ->
  (2 ^ 52 <= roundHalfEven (q / 2 ^ (ilog2 q - 52)) <= 2 ^ 53)%Z.
Proof.
  intros H. destruct (ilog2_spec q H) as [L U].
  set (e := ilog2 q) in *.
  pose proof (two_power_pos (e - 52)) as P.
  assert (E52 : 2 ^ e == inject_Z (2 ^ 52) * 2 ^ (e - 52)).
  { rewrite Zpower_Qpower by lia. rewrite <- Qpower_plus by discriminate.
    now replace (52 + (e - 52))%Z with e by lia. }
  assert (E53 : 2 ^ (e + 1) == inject_Z (2 ^ 53) * 2 ^ (e - 52)).
  { rewrite Zpower_Qpower by lia. rewrite <- Qpower_plus by discriminate.
    now replace (53 + (e - 52))%Z with (e + 1)%Z by lia. }
  split.
  - apply roundHalfEven_ge. apply Qle_shift_div_l; [exact P|]. lra.
  - apply roundHalfEven_le. apply Qle_shift_div_r; [exact P|]. lra.
Qed.

Lemma rne_nonneg q : 0 <= rne q.
Proof.
  destruct (Qlt_le_dec 0 q) as [H|H].
  - rewrite rne_pos by assumption.
    apply Qmult_le_0_compat; [|apply Qlt_le_weak, two_power_pos].
    pose proof (rne_significand q H).
    change 0 with (inject_Z 0). rewrite <- Zle_Qle. lia.
  - rewrite rne_nonpos by assumption. apply Qle_refl.
Qed.

Lemma rne_mono q1 q2 : q1 <= q2 -> rne q1 <= rne q2.
Proof.
  intros H12.
  destruct (Qlt_le_dec 0 q1) as [H1|H1];
    [|rewrite (rne_nonpos q1) by assumption; apply rne_nonneg].
  assert (H2 : 0 < q2) by lra.
  rewrite (rne_pos q1), (rne_pos q2) by assumption.
  pose proof (ilog2_mono q1 q2 H1 H12) as He.
  pose proof (rne_significand q1 H1) as [_ S1].
  pose proof (rne_significand q2 H2) as [S2 _].
  remember (ilog2 q1) as e1 eqn:Ee1. remember (ilog2 q2) as e2 eqn:Ee2.
  set (m1 := roundHalfEven (q1 / 2 ^ (e1 - 52))) in *.
  set (m2 := roundHalfEven (q2 / 2 ^ (e2 - 52))) in *.
  pose proof (two_power_pos (e1 - 52)) as P1.
  pose proof (two_power_pos (e2 - 52)) as P2.
  destruct (Z.eq_dec e1 e2) as [E|NE].
  - assert (Hm : (m1 <= m2)%Z).
    { unfold m1, m2. rewrite E. apply roundHalfEven_mono.
      apply Qmult_le_compat_r; [exact H12|].
      apply Qlt_le_weak, Qinv_lt_0_compat, two_power_pos. }
    rewrite E. apply Qmult_le_compat_r; [now rewrite <- Zle_Qle | lra].
  - apply Qle_trans with (2 ^ e2).
    + apply Qle_trans with (inject_Z (2 ^ 53) * 2 ^ (e1 - 52)).
      * apply Qmult_le_compat_r; [rewrite <- Zle_Qle; exact S1 | lra].
      * rewrite Zpower_Qpower by lia. rewrite <- Qpower_plus by discriminate.
        apply two_power_le. lia.
    + apply Qle_trans with (inject_Z (2 ^ 52) * 2 ^ (e2 - 52)).
      * rewrite Zpower_Qpower by lia. rewrite <- Qpower_plus by discriminate.
        apply two_power_le. lia.
      * apply Qmult_le_compat_r; [rewrite <- Zle_Qle; exact S2 | lra].
Qed.

(** Rounding to the nearest integer is off by at most a half. *)
Lemma roundHalfEven_error y :
  inject_Z (roundHalfEven y) - y <= 1 # 2 /\ y - inject_Z (roundHalfEven y) <= 1 # 2.
Proof.
  unfold roundHalfEven.
  pose proof (Qfloor_le y) as Hl. pose proof (Qlt_floor y) as Hu.
  rewrite inject_Z_plus in Hu. change (inject_Z 1) with 1 in Hu.
  destruct (Qcompare_spec (y - inject_Z (Qfloor y)) (1 # 2)) as [A|A|A].
  - destruct (Z.even (Qfloor y)); [lra|].
    rewrite inject_Z_plus. change (inject_Z 1) with 1. lra.
  - lra.
  - rewrite inject_Z_plus. change (inject_Z 1) with 1. lra.
Qed.

(** Rounding to binary64 moves a number by at most 2^-53 of itself. *)
Lemma rne_error q :
  0 <= q ->
  q - q * (1 # 2 ^ 53) <= rne q /\ rne q <= q + q * (1 # 2 ^ 53).
Proof.
  intros H0. change (1 # 2 ^ 53) with (1 # 9007199254740992).
  destruct (Qlt_le_dec 0 q) as [H|H].
  2:{ rewrite (rne_nonpos q) by assumption. assert (q == 0) by lra. split; lra. }
  rewrite rne_pos by assumption.
  destruct (ilog2_spec q H) as [L U].
  set (e := ilog2 q) in *.
  pose proof (two_power_pos (e - 52)) as P.
  assert (E52 : 2 ^ e == inject_Z (2 ^ 52) * 2 ^ (e - 52)).
  { rewrite Zpower_Qpower by lia. rewrite <- Qpower_plus by discriminate.
    now replace (52 + (e - 52))%Z with e by lia. }
  set (S := 2 ^ (e - 52)) in *.
  set (y := q / S).
  assert (Hy : y * S == q).
  { unfold y. field. intros C. rewrite C in P. now apply Qlt_irrefl in P. }
  destruct (roundHalfEven_error y) as [E1 E2].
  set (m := inject_Z (roundHalfEven y)) in *.
  assert (M1 : (m - y) * S <= (1 # 2) * S) by (apply Qmult_le_compat_r; lra).
  assert (M2 : (y - m) * S <= (1 # 2) * S) by (apply Qmult_le_compat_r; lra).
  change (inject_Z (2 ^ 52)) with (4503599627370496 # 1) in E52.
  split; lra.
Qed.

Lemma rne_compat q1 q2 : q1 == q2 -> rne q1 == rne q2.
Proof.
  intros H. apply Qle_antisym; apply rne_mono; rewrite H; apply Qle_refl.
Qed.

(** Integers below 2^53 are binary64 numbers. *)
Lemma rne_exact_int (n : Z) :
  (0 <= n < 2 ^ 53)%Z -> rne (inject_Z n) == inject_Z n.
Proof.
  intros [H0 H53].
  destruct (Z.eq_dec n 0) as [->|Hn]; [reflexivity|].
  assert (Hq : 0 < inject_Z n).
  { change 0 with (inject_Z 0). rewrite <- Zlt_Qlt. lia. }
  rewrite rne_pos by assumption.
  destruct (ilog2_spec _ Hq) as [L _].
  set (e := ilog2 (inject_Z n)) in *.
  assert (He : (e < 53)%Z).
  { apply two_power_lt_inv. apply Qle_lt_trans with (inject_Z n); [exact L|].
    rewrite <- (Zpower_Qpower 2 53) by lia. now rewrite <- Zlt_Qlt. }
  pose proof (two_power_pos (e - 52)) as P.
  assert (EK : 2 ^ (e - 52) * inject_Z (2 ^ (52 - e)) == 1).
  { rewrite Zpower_Qpower by lia. rewrite <- Qpower_plus by discriminate.
    now replace (e - 52 + (52 - e))%Z with 0%Z by lia. }
  set (S := 2 ^ (e - 52)) in *.
  assert (Hy : inject_Z n / S == inject_Z (n * 2 ^ (52 - e))).
  { rewrite inject_Z_mult. set (K := inject_Z (2 ^ (52 - e))) in *.
    apply Qmult_inj_r with S; [intros C; rewrite C in P; now apply Qlt_irrefl in P|].
    transitivity (inject_Z n); [field; intros C; rewrite C in P; now apply Qlt_irrefl in P|].
    transitivity (inject_Z n * (S * K)); [rewrite EK; ring | ring]. }
  assert (Hr : roundHalfEven (inject_Z n / S) = (n * 2 ^ (52 - e))%Z).
  { apply Z.le_antisymm.
    - apply roundHalfEven_le. rewrite Hy. apply Qle_refl.
    - apply roundHalfEven_ge. rewrite Hy. apply Qle_refl. }
  rewrite Hr, inject_Z_mult.
  transitivity (inject_Z n * (S * inject_Z (2 ^ (52 - e)))); [ring | rewrite EK; ring].
Qed.

End NumberFacts.

(** Sample roundings: 1/10 becomes 3602879701896397 * 2^-55, integers
    below 2^53 are exact, and 2^53 + 1 and 2^53 + 3 are ties that go to the
    even significand. *)
Example rne_samples :
  (rne (1 # 10) == 3602879701896397 # 36028797018963968)%Q
  /\ (rne 100 == 100)%Q
  /\ (rne 9007199254740993 == 9007199254740992)%Q
  /\ (rne 9007199254740995 == 9007199254740996)%Q
  /\ (rne (29 # 100) * 100 < 29)%Q.
Proof. repeat split; vm_compute; reflexivity. Qed.

(** ** Byte-progress percentages *)

Lemma ofZ_inj p q : ofZ p = ofZ q -> p = q.
Proof. unfold ofZ, inject_Z. congruence. Qed.

Lemma min_99_ofZ z : Number.min (ofZ 99) (ofZ z) = ofZ (Z.min 99 z).
Proof.
  unfold Number.min, ofZ.
  destruct (Qle_bool (inject_Z 99) (inject_Z z)) eqn:E.
  - apply Qle_bool_iff in E. rewrite <- Zle_Qle in E. now rewrite Z.min_l.
  - assert (~ (99 <= z)%Z).
    { intros C. rewrite Zle_Qle in C. apply Qle_bool_iff in C. congruence. }
    rewrite Z.min_r by lia. reflexivity.
Qed.

Lemma orZero_ofZ z : orZero (ofZ z) = ofZ z.
Proof.
  unfold orZero, ofZ.
  destruct (Qeq_bool (inject_Z z) 0) eqn:E; [|reflexivity].
  apply Qeq_bool_iff in E. unfold Qeq in E. cbn in E.
  assert (z = 0%Z) by lia. now subst.
Qed.

Lemma orZero_percentOf event : orZero (percentOf event) = ofZ (percentZ event).
Proof.
  unfold percentOf, percentZ, ofUint64, Number.div.
  destruct (Qeq_bool (rne (inject_Z (Z.of_N (total event)))) 0).
  - destruct (Qeq_bool (rne (inject_Z (Z.of_N (loaded event)))) 0); reflexivity.
  - cbn [Number.mul ofZ Number.floor]. fold (ofZ 99).
    fold (ofZ (Qfloor (rne (rne (rne (inject_Z (Z.of_N (loaded event))) / rne (inject_Z (Z.of_N (total event)))) * inject_Z 100)))).
    rewrite min_99_ofZ, orZero_ofZ. reflexivity.
Qed.

Lemma percentZ_range event : (0 <= percentZ event <= 99)%Z.
Proof.
  unfold percentZ.
  destruct (Qeq_bool _ 0); [destruct (Qeq_bool _ 0); lia|].
  split; [|apply Z.le_min_l].
  apply Z.min_glb; [lia|].
  rewrite <- (Qfloor_Z 0). apply Qfloor_resp_le, rne_nonneg.
Qed.

Lemma percentZ_mono a b : sameTransfer a b -> (percentZ a <= percentZ b)%Z.
Proof.
  intros [Ht Hl]. unfold percentZ. rewrite <- Ht.
  set (t := rne (inject_Z (Z.of_N (total a)))).
  assert (Hx : (rne (inject_Z (Z.of_N (loaded a))) <= rne (inject_Z (Z.of_N (loaded b))))%Q).
  { apply rne_mono. rewrite <- Zle_Qle. lia. }
  set (x := rne (inject_Z (Z.of_N (loaded a)))) in *.
  set (y := rne (inject_Z (Z.of_N (loaded b)))) in *.
  pose proof (rne_nonneg (inject_Z (Z.of_N (loaded a)))) as Hx0. fold x in Hx0.
  pose proof (rne_nonneg (inject_Z (Z.of_N (total a)))) as Ht0. fold t in Ht0.
  destruct (Qeq_bool t 0) eqn:Et.
  - destruct (Qeq_bool x 0) eqn:Ex; [destruct (Qeq_bool y 0); lia|].
    destruct (Qeq_bool y 0) eqn:Ey; [|lia].
    apply Qeq_bool_iff in Ey. apply Qeq_bool_neq in Ex. exfalso. apply Ex. lra.
  - apply Qeq_bool_neq in Et.
    apply Z.min_le_compat_l, Qfloor_resp_le, rne_mono.
    apply Qmult_le_compat_r; [|discriminate].
    apply rne_mono. apply Qmult_le_compat_r; [exact Hx|].
    apply Qlt_le_weak, Qinv_lt_0_compat. lra.
Qed.

Section PercentAccuracy.

Local Open Scope Q_scope.

(** The percentage a byte-progress callback stores, against exact arithmetic:
    for a transfer of at most 2^45 bytes it is the floor of the exact
    percentage or one less, capped at 99. *)
Lemma percentZ_accuracy event :
  (0 < total event <= 2 ^ 45)%N ->
  (loaded event <= total event)%N ->
  let exact := (100 * Z.of_N (loaded event) / Z.of_N (total event))%Z in
  (Z.min 99 exact - 1 <= percentZ event <= Z.min 99 exact)%Z.
Proof.
  intros [Ht0 Ht] Hl exact. unfold percentZ.
  set (x := Z.of_N (loaded event)) in *. set (t := Z.of_N (total event)) in *.
  assert (Ht' : (0 < t <= 2 ^ 45)%Z).
  { unfold t. split; [lia|]. change (2 ^ 45)%Z with (Z.of_N (2 ^ 45)). lia. }
  assert (Hx' : (0 <= x <= t)%Z) by (unfold x, t; lia).
  assert (Ex : rne (inject_Z x) == inject_Z x) by (apply rne_exact_int; lia).
  assert (Et : rne (inject_Z t) == inject_Z t) by (apply rne_exact_int; lia).
  assert (Tpos : 0 < inject_Z t).
  { change 0 with (inject_Z 0). rewrite <- Zlt_Qlt. lia. }
  destruct (Qeq_bool (rne (inject_Z t)) 0) eqn:E0.
  { apply Qeq_bool_iff in E0. rewrite Et in E0. rewrite E0 in Tpos.
    now apply Qlt_irrefl in Tpos. }
  set (q := inject_Z x / inject_Z t).
  assert (Eq : rne (inject_Z x) / rne (inject_Z t) == q).
  { unfold q. rewrite Ex, Et. reflexivity. }
  assert (Hq0 : 0 <= q).
  { unfold q. apply Qle_shift_div_l; [exact Tpos|]. rewrite Qmult_0_l.
    change 0 with (inject_Z 0). rewrite <- Zle_Qle. lia. }
  assert (Hq1 : q <= 1).
  { unfold q. apply Qle_shift_div_r; [exact Tpos|]. rewrite Qmult_1_l.
    rewrite <- Zle_Qle. lia. }
  assert (R1 : rne (rne (inject_Z x) / rne (inject_Z t)) == rne q)
    by (apply rne_compat, Eq).
  destruct (rne_error q Hq0) as [A1 A2].
  pose proof (rne_nonneg q) as A0.
  set (r := rne (rne (rne (inject_Z x) / rne (inject_Z t)) * 100)).
  assert (R2 : r == rne (rne q * 100)).
  { unfold r. apply rne_compat. rewrite R1. reflexivity. }
  destruct (rne_error (rne q * 100)) as [B1 B2]; [lra|].
  change (1 # 2 ^ 53) with (1 # 9007199254740992) in *.
  (* the exact percentage and its floor *)
  pose proof (Z.div_mod (100 * x) t ltac:(lia)) as Hdm.
  pose proof (Z.mod_pos_bound (100 * x) t ltac:(lia)) as Hmod.
  fold exact in Hdm. set (m := ((100 * x) mod t)%Z) in *.
  assert (Q100 : q * 100 * inject_Z t == inject_Z exact * inject_Z t + inject_Z m).
  { transitivity (inject_Z (100 * x)).
    - rewrite inject_Z_mult. unfold q. change (inject_Z 100) with 100. field.
      intros C. rewrite C in Tpos. now apply Qlt_irrefl in Tpos.
    - rewrite Hdm at 1. rewrite inject_Z_plus, inject_Z_mult. ring. }
  assert (Hm0 : 0 <= inject_Z m) by (change 0 with (inject_Z 0); rewrite <- Zle_Qle; lia).
  assert (Hm1 : inject_Z m <= inject_Z t - 1).
  { change 1 with (inject_Z 1). unfold Qminus. rewrite <- inject_Z_opp, <- inject_Z_plus.
    rewrite <- Zle_Qle. lia. }
  assert (Htc : inject_Z t * (1 # 35184372088832) <= 1).
  { assert (inject_Z t <= 35184372088832 # 1).
    { change (35184372088832 # 1) with (inject_Z (2 ^ 45)). rewrite <- Zle_Qle. lia. }
    lra. }
  set (T := inject_Z t) in *. set (X := inject_Z exact) in *. set (M := inject_Z m) in *.
  set (E := q * 100) in *.
  assert (HE1 : X <= E).
  { apply (Qmult_le_r _ _ T); [exact Tpos|]. lra. }
  assert (HE2 : E <= X + 1 - (1 # 35184372088832)).
  { apply (Qmult_le_r _ _ T); [exact Tpos|]. lra. }
  assert (HE3 : E <= 100) by (unfold E; lra).
  assert (HE0 : 0 <= E) by (unfold E; lra).
  assert (Lo : inject_Z (exact - 1) <= r).
  { unfold Z.sub. rewrite inject_Z_plus, inject_Z_opp. change (inject_Z 1) with 1. fold X.
    clear - R2 A1 B1 HE1 HE3 HE0. clearbody r q X. subst E.
    set (a := rne q) in *. set (b := rne (a * 100)) in *. clearbody a b. lra. }
  assert (Hi : r < inject_Z (exact + 1)).
  { rewrite inject_Z_plus. change (inject_Z 1) with 1. fold X.
    clear - R2 A2 B2 HE2 HE3 HE0. clearbody r q X. subst E.
    set (a := rne q) in *. set (b := rne (a * 100)) in *. clearbody a b. lra. }
  apply Qfloor_resp_le in Lo. rewrite Qfloor_Z in Lo.
  assert (Hi' : (Qfloor r < exact + 1)%Z).
  { rewrite Zlt_Qlt. apply Qle_lt_trans with r; [apply Qfloor_le | exact Hi]. }
  lia.
Qed.

End PercentAccuracy.

(** ** The upload session *)

Lemma progressTrace_ge file events w p q :
  progress (localInputState w) = ofZ p ->
  (q <= p)%Z ->
  (forall event, In event (filter lengthComputable events) ->
                 (q <= percentZ event)%Z) ->
  Forall (Number.le (ofZ q)) (progressTrace file events w).
Proof.
  revert w p.
  induction events as [|event rest IH]; intros w p Hp Hq Hall; [constructor|].
  cbn [progressTrace]. unfold xhr_upload_onprogress.
  cbn [filter] in Hall.
  destruct (lengthComputable event) eqn:Hc; cbn [negb].
  - change (progress (localInputState (setLocalInputState uploading (name file) (percentOf event) w)))
      with (orZero (percentOf event)).
    rewrite orZero_percentOf.
    assert (Hev : (q <= percentZ event)%Z) by (apply Hall; now left).
    constructor.
    + cbn. rewrite <- Zle_Qle. exact Hev.
    + apply (IH _ (percentZ event)).
      * change (orZero (percentOf event) = ofZ (percentZ event)). apply orZero_percentOf.
      * exact Hev.
      * intros e He. apply Hall. now right.
  - constructor.
    + rewrite Hp. cbn. now rewrite <- Zle_Qle.
    + now apply (IH w p).
Qed.

Lemma progressTrace_sorted file events w p :
  progress (localInputState w) = ofZ p ->
  (forall event, In event (filter lengthComputable events) ->
                 (p <= percentZ event)%Z) ->
  StronglySorted sameTransfer (filter lengthComputable events) ->
  StronglySorted Number.le (progressTrace file events w).
Proof.
  revert w p.
  induction events as [|event rest IH]; intros w p Hp Hall Hsorted;
    [constructor|].
  cbn [progressTrace]. unfold xhr_upload_onprogress.
  cbn [filter] in Hall, Hsorted.
  destruct (lengthComputable event) eqn:Hc; cbn [negb].
  - change (progress (localInputState (setLocalInputState uploading (name file) (percentOf event) w)))
      with (orZero (percentOf event)).
    rewrite orZero_percentOf.
    apply StronglySorted_inv in Hsorted as [Hrest Hhead].
    assert (Hlater : forall e, In e (filter lengthComputable rest) ->
                               (percentZ event <= percentZ e)%Z).
    { intros e He. apply percentZ_mono.
      rewrite Forall_forall in Hhead. now apply Hhead. }
    constructor.
    + apply (IH _ (percentZ event)); try assumption.
      change (orZero (percentOf event) = ofZ (percentZ event)). apply orZero_percentOf.
    + apply (progressTrace_ge _ _ _ (percentZ event)); try assumption; [|lia].
      change (orZero (percentOf event) = ofZ (percentZ event)). apply orZero_percentOf.
  - constructor.
    + now apply (IH w p).
    + rewrite Hp. apply (progressTrace_ge _ _ _ p); [assumption | lia | assumption].
Qed.

Lemma localInputState_timers l w :
  localInputState (fold_left (fun acc timer => call (callback timer) acc) l w)
  = localInputState w.
Proof.
  revert w. induction l as [|t l IH]; intros w; [reflexivity|].
  cbn [fold_left]. rewrite IH. now destruct (callback t).
Qed.

Lemma sockets_timers l w :
  sockets (fold_left (fun acc timer => call (callback timer) acc) l w)
  = sockets w + List.length l.
Proof.
  revert w. induction l as [|t l IH]; intros w; [cbn; lia|].
  cbn [fold_left List.length]. rewrite IH. destruct (callback t). cbn. lia.
Qed.

Lemma timers_timers l w :
  timers (fold_left (fun acc timer => call (callback timer) acc) l w)
  = timers w.
Proof.
  revert w. induction l as [|t l IH]; intros w; [reflexivity|].
  cbn [fold_left]. rewrite IH. now destruct (callback t).
Qed.

Lemma mode_refresh_result r w :
  mode (localInputState (refreshLocalInputState_result r w)) = ready
  \/ mode (localInputState (refreshLocalInputState_result r w)) = empty.
Proof.
  destruct r as [data|message]; cbn [refreshLocalInputState_result].
  - destruct (readyName data); [left | right]; reflexivity.
  - right. reflexivity.
Qed.

Lemma uploading_100_only_after_2xx s w :
  mode (localInputState (run s w)) = uploading ->
  progress (localInputState (run s w)) = ofZ 100 ->
  (exists file status data,
      s = UploadLoad file status data /\ (200 <= status < 300)%Z)
  \/ localInputState (run s w) = localInputState w.
Proof.
  intros Hmode Hprog. destruct s; cbn [run] in *.
  - destruct files as [|file others]; [now right|].
    cbn in Hprog. apply ofZ_inj in Hprog. discriminate.
  - unfold xhr_upload_onprogress in *.
    destruct (lengthComputable event); cbn [negb] in *; [|now right].
    change (orZero (percentOf event) = ofZ 100) in Hprog.
    rewrite orZero_percentOf in Hprog. apply ofZ_inj in Hprog.
    pose proof (percentZ_range event). lia.
  - unfold xhr_onload in *.
    destruct ((200 <=? status)%Z && (status <? 300)%Z) eqn:E.
    + left. exists file, status, data. split; [reflexivity|]. lia.
    + right. now destruct data.
  - now right.
  - destruct s; discriminate Hmode.
  - now right.
  - destruct (mode_refresh_result r w) as [E|E]; congruence.
  - right. unfold btnStart_click.
    destruct (Mode_eqb _ _); [reflexivity|].
    now destruct (Js.truthy _).
  - right. now destruct r.
  - now right.
  - now right.
  - now right.
  - now right.
  - now right.
  - right. unfold updateStatus_result.
    destruct reply as [reply|]; [|reflexivity].
    now destruct (hasTasks reply).
  - now right.
  - right. unfold elapse. now rewrite localInputState_timers.
Qed.

(** Every other stretch leaves the session as it is. *)
Lemma session_frame s w :
  writesSession s = false ->
  localInputState (run s w) = localInputState w.
Proof.
  destruct s; cbn [writesSession run]; try discriminate; intros _;
    try reflexivity.
  - unfold btnStart_click.
    destruct (Mode_eqb _ _); [reflexivity|].
    now destruct (Js.truthy _).
  - now destruct r.
  - unfold updateStatus_result.
    destruct reply as [reply|]; [|reflexivity].
    now destruct (hasTasks reply).
  - unfold elapse. now rewrite localInputState_timers.
Qed.

(** From the booted page on, a session that is Uploading at 100 has a 2xx
    [xhr.onload] behind it. *)
Lemma uploading_100_has_acknowledgment trace children :
  mode (localInputState (runAll trace (boot children))) = uploading ->
  progress (localInputState (runAll trace (boot children))) = ofZ 100 ->
  exists before file status data after,
    trace = before ++ UploadLoad file status data :: after
    /\ (200 <= status < 300)%Z.
Proof.
  induction trace as [|s trace IH] using rev_ind; [discriminate|].
  unfold runAll in *. rewrite fold_left_app. cbn [fold_left].
  intros Hmode Hprog.
  destruct (uploading_100_only_after_2xx _ _ Hmode Hprog)
    as [(file & status & data & -> & Hstatus) | Hsame].
  - exists trace, file, status, data, []. now split.
  - rewrite Hsame in Hmode, Hprog.
    destruct (IH Hmode Hprog) as (before & file & status & data & after & -> & H).
    exists before, file, status, data, (after ++ [s]).
    split; [|exact H]. now rewrite <- app_assoc.
Qed.

Lemma localInputState_onprogress file event w :
  lengthComputable event = true ->
  localInputState (xhr_upload_onprogress file event w)
  = {| mode := uploading; fileName := name file;
       progress := orZero (percentOf event) |}.
Proof. intros H. unfold xhr_upload_onprogress. now rewrite H. Qed.

(** The quotient is rounded before it is scaled: 29 bytes of 100 show as 28
    (0.29 * 100 is 28.999999999999996 in binary64), 50 of 100 as 50, and the
    last byte leaves 99. *)
Example percentOf_rounding :
  percentOf {| lengthComputable := true; loaded := 29; total := 100 |} = ofZ 28
  /\ percentOf {| lengthComputable := true; loaded := 50; total := 100 |} = ofZ 50
  /\ percentOf {| lengthComputable := true; loaded := 100; total := 100 |} = ofZ 99.
Proof. repeat split; vm_compute; reflexivity. Qed.

(** C4, as the code has it.  A byte-progress callback with a computable
    length moves the session to Uploading with progress
    [Math.min(99, Math.floor(loaded / total * 100))] in binary64 (0 when
    that is NaN), an integer from 0 to 99; for a transfer of at most 2^45
    bytes it is the floor of the exact percentage or one less, capped at 99
    (29 bytes of 100 show as 28, 50 as 50, all 100 as 99).  A callback
    without a computable length changes nothing.  Of two callbacks of one
    transfer (same total, loaded count not smaller) the later never stores
    less, so the progress values of one transfer after its file selection
    are in non-decreasing order.  And a stretch of the script that leaves
    the session Uploading at 100 either is [xhr.onload] with a 2xx status
    or has not touched the session; so, on any run of the page from its
    start, a session that is Uploading at 100 has a 2xx [xhr.onload]
    behind it. *)
Theorem upload_progress_capped_and_monotone :
  (forall file event w,
      lengthComputable event = true ->
      localInputState (xhr_upload_onprogress file event w)
      = {| mode := uploading; fileName := name file;
           progress :=
             orZero
               (Number.min (ofZ 99)
                  (Number.floor
                     (Number.mul
                        (Number.div (ofUint64 (loaded event))
                                    (ofUint64 (total event)))
                        (ofZ 100)))) |}
      /\ isIntegerUpTo 99
           (progress (localInputState (xhr_upload_onprogress file event w))))
  /\ (forall file event w,
        lengthComputable event = true ->
        (0 < total event <= 2 ^ 45)%N ->
        (loaded event <= total event)%N ->
        let exact := (100 * Z.of_N (loaded event) / Z.of_N (total event))%Z in
        exists p,
          progress (localInputState (xhr_upload_onprogress file event w)) = ofZ p
          /\ (Z.min 99 exact - 1 <= p <= Z.min 99 exact)%Z)
  /\ (forall file w,
        let stored n :=
          progress
            (localInputState
               (xhr_upload_onprogress file
                  {| lengthComputable := true; loaded := n; total := 100 |} w)) in
        stored 29%N = ofZ 28 /\ stored 50%N = ofZ 50 /\ stored 100%N = ofZ 99)
  /\ (forall file event w,
        lengthComputable event = false ->
        xhr_upload_onprogress file event w = w)
  /\ (forall file a b wa wb,
        lengthComputable a = true ->
        lengthComputable b = true ->
        sameTransfer a b ->
        Number.le (progress (localInputState (xhr_upload_onprogress file a wa)))
                  (progress (localInputState (xhr_upload_onprogress file b wb))))
  /\ (forall file others events w,
        StronglySorted sameTransfer (filter lengthComputable events) ->
        let selected := worldOf (videoUploadInput_change (file :: others) w) in
        StronglySorted Number.le
          (progress (localInputState selected)
           :: progressTrace file events selected))
  /\ (forall s w,
        mode (localInputState (run s w)) = uploading ->
        progress (localInputState (run s w)) = ofZ 100 ->
        (exists file status data,
            s = UploadLoad file status data /\ (200 <= status < 300)%Z)
        \/ localInputState (run s w) = localInputState w)
  /\ (forall trace children,
        mode (localInputState (runAll trace (boot children))) = uploading ->
        progress (localInputState (runAll trace (boot children))) = ofZ 100 ->
        exists before file status data after,
          trace = before ++ UploadLoad file status data :: after
          /\ (200 <= status < 300)%Z).
Proof.
  split.
  { intros file event w Hc.
    rewrite localInputState_onprogress by assumption.
    split; [reflexivity|]. cbn [progress].
    exists (percentZ event). split; [apply orZero_percentOf|].
    apply percentZ_range. }
  split.
  { intros file event w Hc Ht Hl exact.
    rewrite localInputState_onprogress by assumption. cbn [progress].
    exists (percentZ event). split; [apply orZero_percentOf|].
    now apply percentZ_accuracy. }
  split.
  { intros file w stored. unfold stored.
    rewrite !localInputState_onprogress by reflexivity.
    repeat split; vm_compute; reflexivity. }
  split.
  { intros file event w Hc. unfold xhr_upload_onprogress. now rewrite Hc. }
  split.
  { intros file a b wa wb Ha Hb Hab.
    rewrite !localInputState_onprogress by assumption. cbn [progress].
    rewrite !orZero_percentOf. cbn. rewrite <- Zle_Qle.
    now apply percentZ_mono. }
  split;
    [|split; [exact uploading_100_only_after_2xx
             | exact uploading_100_has_acknowledgment]].
  intros file others events w Hsorted selected.
  assert (Hzero : progress (localInputState selected) = ofZ 0) by reflexivity.
  assert (Hall : forall event, In event (filter lengthComputable events) ->
                               (0 <= percentZ event)%Z).
  { intros event _. apply percentZ_range. }
  constructor.
  - now apply (progressTrace_sorted _ _ _ 0%Z).
  - rewrite Hzero. apply (progressTrace_ge _ _ _ 0%Z); [assumption | lia | assumption].
Qed.

Lemma upload_progress_capped_and_monotone_witness :
  let a := {| lengthComputable := true; loaded := 29; total := 100 |} in
  let b := {| lengthComputable := true; loaded := 58; total := 100 |} in
  let file := {| name := "a.mp4" |} in
  isIntegerUpTo 99
    (progress (localInputState (xhr_upload_onprogress file a (boot []))))
  /\ (exists p,
         progress (localInputState (xhr_upload_onprogress file b (boot [])))
         = ofZ p
         /\ (57 <= p <= 58)%Z)
  /\ Number.le
       (progress (localInputState (xhr_upload_onprogress file a (boot []))))
       (progress (localInputState (xhr_upload_onprogress file b (boot []))))
  /\ StronglySorted Number.le
       (progress (localInputState
                    (worldOf (videoUploadInput_change [file] (boot []))))
        :: progressTrace file [a; b]
             (worldOf (videoUploadInput_change [file] (boot []))))
  /\ (exists before f status data after,
         [SelectFiles [file]; UploadProgress file b;
          UploadLoad file 200 (DataObject None None)]
         = before ++ UploadLoad f status data :: after
         /\ (200 <= status < 300)%Z).
Proof.
  intros a b file.
  destruct upload_progress_capped_and_monotone
    as (Hset & Hexact & _ & _ & Hpair & Htrace & _ & Hack).
  assert (Hab : sameTransfer a b) by (split; [reflexivity | vm_compute; discriminate]).
  split; [apply (Hset file a (boot [])); reflexivity|].
  split.
  { apply (Hexact file b (boot []));
      [reflexivity | split; vm_compute; (reflexivity || discriminate)
      | vm_compute; discriminate]. }
  split; [apply Hpair; [reflexivity | reflexivity | exact Hab]|].
  split; [|apply (Hack _ []); reflexivity].
  apply (Htrace file [] [a; b] (boot [])).
  cbn [filter a b lengthComputable].
  repeat constructor; vm_compute; discriminate.
Defined.

(** C4 as worded fails: the progress can fall while the session is
    Uploading.  The handler stores the percentage of its own event and does
    not compare it with the stored progress, and a pull that ends while
    "a.mp4" is on its way leaves the session Empty with the select button
    enabled.  The user then selects "b.mp4"; both transfers are now in
    flight.  A callback of the first at 60 of 100 bytes is followed by a
    callback of the second at 10 of 100: the session is Uploading after
    each, with progress 60 and then 10. *)
Lemma upload_progress_falls_between_transfers :
  let a := {| name := "a.mp4" |} in
  let b := {| name := "b.mp4" |} in
  let sent n := {| lengthComputable := true; loaded := n; total := 100 |} in
  let pulled :=
    runAll [SelectFiles [a]; UploadProgress a (sent 50%N);
            RefreshResult (Rejected "Failed to fetch")] (boot []) in
  let first := runAll [SelectFiles [b]; UploadProgress a (sent 60%N)] pulled in
  let second := run (UploadProgress b (sent 10%N)) first in
  btnSelectVideo_click pulled = true
  /\ mode (localInputState first) = uploading
  /\ progress (localInputState first) = ofZ 60
  /\ mode (localInputState second) = uploading
  /\ progress (localInputState second) = ofZ 10
  /\ ~ Number.le (progress (localInputState first))
                 (progress (localInputState second)).
Proof.
  cbv zeta. repeat split; try (vm_compute; reflexivity).
  vm_compute. intros H. now apply H.
Qed.

(** ** The reconciliation pull *)

Lemma resume_refreshLocalInputState w0 r w :
  resumeApi (refreshLocalInputState w0) r w
  = Done (refreshLocalInputState_result r w).
Proof. reflexivity. Qed.

Lemma localInputState_refresh_result r w :
  localInputState (refreshLocalInputState_result r w)
  = match r with
    | Fulfilled data =>
        match readyName data with
        | Some nm => {| mode := ready; fileName := nm; progress := ofZ 100 |}
        | None => {| mode := empty; fileName := ""; progress := ofZ 0 |}
        end
    | Rejected _ => {| mode := empty; fileName := ""; progress := ofZ 0 |}
    end.
Proof.
  destruct r as [data|message]; cbn [refreshLocalInputState_result];
    [destruct (readyName data)|]; reflexivity.
Qed.

(** When [readyName] finds a name: a payload whose state is "ready" and
    whose file has a non-empty name. *)
Lemma readyName_spec data nm :
  readyName data = Some nm <->
  exists reply,
    data = Some reply /\ state reply = Some "ready"
    /\ file_name reply = Some nm /\ nm <> "".
Proof.
  unfold readyName. split.
  - destruct data as [reply|]; [|discriminate].
    destruct (state reply) as [st|] eqn:Hst; [|discriminate].
    destruct (file_name reply) as [n|] eqn:Hn; [|discriminate].
    destruct (String.eqb st "ready") eqn:Est; [|discriminate].
    destruct (Js.truthy n) eqn:Etr; [|discriminate].
    cbn [andb]. intros [= ->]. apply String.eqb_eq in Est. subst st.
    exists reply. repeat split; try assumption.
    intros ->. discriminate.
  - intros (reply & -> & -> & -> & Hnm).
    cbn. destruct nm; [contradiction | reflexivity].
Qed.

Lemma reportsReady_spec r :
  reportsReady r = true <->
  exists reply nm,
    r = Fulfilled (Some reply) /\ state reply = Some "ready"
    /\ file_name reply = Some nm /\ nm <> "".
Proof.
  split.
  - destruct r as [data|message]; [|discriminate]. cbn [reportsReady].
    destruct (readyName data) as [nm|] eqn:E; [|discriminate]. intros _.
    apply readyName_spec in E as (reply & -> & Hst & Hnm & Hne).
    now exists reply, nm.
  - intros (reply & nm & -> & Hst & Hnm & Hne). cbn [reportsReady].
    replace (readyName (Some reply)) with (Some nm); [reflexivity|].
    symmetry. apply readyName_spec. now exists reply.
Qed.

(** C1, as the code has it.  The result of the pull is never ignored: when
    it arrives while the session is Uploading, the session leaves Uploading
    all the same, for Ready with the server's file name and progress 100 when
    the reply reports a ready state with a file name, for Empty otherwise and
    when the pull fails. *)
Theorem refresh_result_replaces_uploading (w0 : World) (r : ApiResult) (w : World) :
  mode (localInputState w) = uploading ->
  exists w',
    resumeApi (refreshLocalInputState w0) r w = Done w'
    /\ mode (localInputState w') <> uploading
    /\ localInputState w'
       = match r with
         | Fulfilled data =>
             match readyName data with
             | Some nm =>
                 {| mode := ready; fileName := nm; progress := ofZ 100 |}
             | None => {| mode := empty; fileName := ""; progress := ofZ 0 |}
             end
         | Rejected _ => {| mode := empty; fileName := ""; progress := ofZ 0 |}
         end.
Proof.
  intros _. exists (refreshLocalInputState_result r w).
  split; [reflexivity|]. split; [|apply localInputState_refresh_result].
  destruct (mode_refresh_result r w) as [E|E]; rewrite E; discriminate.
Qed.

Lemma refresh_result_replaces_uploading_witness :
  let w := worldOf (videoUploadInput_change [{| name := "a.mp4" |}] (boot [])) in
  exists w',
    resumeApi (refreshLocalInputState (boot []))
              (Fulfilled (Some {| state := Some "ready";
                                  file_name := Some "old.mp4" |})) w
    = Done w'
    /\ mode (localInputState w') <> uploading
    /\ localInputState w'
       = {| mode := ready; fileName := "old.mp4"; progress := ofZ 100 |}.
Proof.
  intros w.
  exact (refresh_result_replaces_uploading
           (boot [])
           (Fulfilled (Some {| state := Some "ready";
                               file_name := Some "old.mp4" |}))
           w eq_refl).
Defined.

(** C1 as worded fails.  A pull starts on the idle page; the user then
    selects a file and the session is Uploading; the pull's result arrives
    (here a network failure) and the session is Empty. *)
Lemma refresh_overrides_uploading :
  let pull := refreshLocalInputState (boot []) in
  let w1 :=
    worldOf (videoUploadInput_change [{| name := "a.mp4" |}] (worldOf pull)) in
  mode (localInputState w1) = uploading
  /\ exists w2,
       resumeApi pull (Rejected "Failed to fetch") w1 = Done w2
       /\ mode (localInputState w2) = empty
       /\ mode (localInputState w2) <> uploading.
Proof.
  cbv zeta. split; [reflexivity|].
  eexists. split; [reflexivity|]. split; [reflexivity | discriminate].
Qed.

(** C10. When the pull fails, or succeeds without reporting a ready state
    with a file name, the session is Empty afterwards, with no file name and
    progress 0, whatever it was before. *)
Theorem refresh_failure_sets_empty (w0 : World) (r : ApiResult) (w : World) :
  reportsReady r = false ->
  exists w',
    resumeApi (refreshLocalInputState w0) r w = Done w'
    /\ localInputState w'
       = {| mode := empty; fileName := ""; progress := ofZ 0 |}.
Proof.
  intros Hr. exists (refreshLocalInputState_result r w).
  split; [reflexivity|]. rewrite localInputState_refresh_result.
  destruct r as [data|message]; [|reflexivity].
  cbn [reportsReady] in Hr. now destruct (readyName data).
Qed.

(** A Ready session, as an upload that the server accepted leaves it. *)
Example ready_session :
  localInputState
    (worldOf (settle {| name := "a.mp4" |}
                (xhr_onload {| name := "a.mp4" |} 200 emptyObject (boot []))))
  = {| mode := ready; fileName := "a.mp4"; progress := ofZ 100 |}.
Proof. reflexivity. Qed.

Lemma refresh_failure_sets_empty_witness :
  let readyWorld :=
    worldOf (settle {| name := "a.mp4" |}
               (xhr_onload {| name := "a.mp4" |} 200 emptyObject (boot []))) in
  exists w',
    resumeApi (refreshLocalInputState readyWorld)
              (Rejected "Failed to fetch") readyWorld = Done w'
    /\ localInputState w'
       = {| mode := empty; fileName := ""; progress := ofZ 0 |}.
Proof.
  intros readyWorld.
  exact (refresh_failure_sets_empty readyWorld (Rejected "Failed to fetch")
           readyWorld eq_refl).
Defined.

(** ** Upload outcomes *)




(** The scenario of the specification: "a.mp4" is selected, three progress
    callbacks report 10, 55 and 99 percent, the server accepts the upload and
    names the file "cache.mp4". *)
Example upload_scenario :
  let file := {| name := "a.mp4" |} in
  let at_ p := {| lengthComputable := true; loaded := p; total := 100 |} in
  let w1 := run (SelectFiles [file]) (boot []) in
  let w2 := run (UploadProgress file (at_ 10%N)) w1 in
  let w3 := run (UploadProgress file (at_ 55%N)) w2 in
  let w4 := run (UploadProgress file (at_ 99%N)) w3 in
  let done :=
    settle file (xhr_onload file 200 (DataObject (Some "cache.mp4") None) w4) in
  map (fun w => localInputState w) [w1; w2; w3; w4; worldOf done]
  = [ {| mode := uploading; fileName := "a.mp4"; progress := ofZ 0 |};
      {| mode := uploading; fileName := "a.mp4"; progress := ofZ 10 |};
      {| mode := uploading; fileName := "a.mp4"; progress := ofZ 55 |};
      {| mode := uploading; fileName := "a.mp4"; progress := ofZ 99 |};
      {| mode := ready; fileName := "cache.mp4"; progress := ofZ 100 |} ].
Proof. vm_compute. reflexivity. Qed.

Lemma NeverUploads_refresh w : NeverUploads (refreshLocalInputState w).
Proof.
  apply NeverUploads_api; [discriminate|].
  intros r w'. constructor.
Qed.

(** C8, as the code has it.  A non-2xx response (with a reply other than
    null) and a transport error both reject the upload's promise; the change
    handler then sets the session to Error with the selected file's name and
    progress 0, logs the failure and suspends on one reconciliation pull;
    no stretch of that task ever sends the file again.  The Error state
    lasts until the reply to that pull arrives: the reply makes the session
    Ready or Empty.  Apart from a pull's result, only a file selection,
    which starts an upload at progress 0, and the events of an upload end
    an Error state. *)
Theorem upload_failure_sets_error (file : File) (w : World) :
  (forall status filename message,
      ~ (200 <= status < 300)%Z ->
      exists reason,
        xhr_onload file status (DataObject filename message) w
        = (w, Some (Reject reason)))
  /\ xhr_onerror w = (w, Some (Reject "Network error"))
  /\ (forall reason,
        let failed := uploadSettled file (Reject reason) w in
        localInputState (worldOf failed)
        = {| mode := error; fileName := name file; progress := ofZ 0 |}
        /\ issued failed
           = Some {| endpoint := "/local_input/state"; method := GET;
                     body := NoBody |}
        /\ NeverUploads failed
        /\ forall r w',
             exists w'',
               resumeApi failed r w' = Done w''
               /\ (mode (localInputState w'') = ready
                   \/ mode (localInputState w'') = empty))
  /\ (forall s w',
         mode (localInputState w') = error ->
         mode (localInputState (run s w')) <> error ->
         writesSession s = true)
  /\ (forall selected others w',
         localInputState
           (worldOf (videoUploadInput_change (selected :: others) w'))
         = {| mode := uploading; fileName := name selected;
              progress := ofZ 0 |}).
Proof.
  split.
  { intros status filename message Hstatus. unfold xhr_onload.
    replace ((200 <=? status)%Z && (status <? 300)%Z) with false; [eauto|].
    symmetry. apply andb_false_iff.
    destruct (Z.leb_spec 200 status); [right | now left].
    apply Z.ltb_ge. lia. }
  split; [reflexivity|].
  split.
  { intros reason failed.
    split; [reflexivity|]. split; [reflexivity|].
    split; [apply NeverUploads_refresh|].
    intros r w'. exists (refreshLocalInputState_result r w').
    split; [reflexivity | apply mode_refresh_result]. }
  split; [|reflexivity].
  intros s w' Herror Hleft.
  destruct (writesSession s) eqn:E; [reflexivity|].
  rewrite (session_frame s w' E) in Hleft. contradiction.
Qed.

Lemma upload_failure_sets_error_witness :
  exists reason,
    xhr_onload {| name := "a.mp4" |} 500
               (DataObject None (Some "disk full")) (boot [])
    = (boot [], Some (Reject reason)).
Proof.
  destruct (upload_failure_sets_error {| name := "a.mp4" |} (boot []))
    as (Hload & _).
  apply (Hload 500%Z None (Some "disk full")). lia.
Defined.

(** C8 as worded fails.  The upload of "a.mp4" ends with a transport error
    and the session is Error; the reply to the pull that the same handler
    has sent arrives, no file having been selected meanwhile, and the
    session is Empty. *)
Lemma upload_error_does_not_persist :
  let file := {| name := "a.mp4" |} in
  let w1 := worldOf (videoUploadInput_change [file] (boot [])) in
  let failed := settle file (xhr_onerror w1) in
  localInputState (worldOf failed)
  = {| mode := error; fileName := "a.mp4"; progress := ofZ 0 |}
  /\ exists w3,
       resumeApi failed
                 (Fulfilled (Some {| state := Some "empty"; file_name := None |}))
                 (worldOf failed)
       = Done w3
       /\ mode (localInputState w3) = empty
       /\ mode (localInputState w3) <> error.
Proof.
  cbv zeta. split; [reflexivity|].
  eexists. split; [reflexivity|]. split; [reflexivity | discriminate].
Qed.

(** ** The start command *)

(** A text of one non-empty line that is not progress-like is appended. *)
Lemma logToConsole_discrete text children :
  Js.split text = [text] ->
  Js.truthy text = true ->
  isProgressLine text = false ->
  logToConsole text children = children ++ [text].
Proof.
  intros Hsplit Htruthy Hdisc.
  rewrite logToConsole_lines, Hsplit. cbn [fold_left].
  now apply logLine_discrete.
Qed.

Lemma Mode_eqb_eq a b : Mode_eqb a b = true <-> a = b.
Proof. destruct a, b; cbn; split; congruence. Qed.

(** C6. Clicked while the session is Uploading, the start handler returns
    at once: it sends nothing, and the page it leaves is the page it found
    with one more console entry, the notice that an upload is under way.
    While the session is Uploading the start button is disabled as well. *)
Theorem start_rejected_while_uploading (w : World) :
  mode (localInputState w) = uploading ->
  btnStart_click w
  = Done (withConsoleOutput
            (consoleOutput w ++ ["!! 文件上传中，请稍后再开始任务"]) w)
  /\ issued (btnStart_click w) = None
  /\ localInputState (worldOf (btnStart_click w)) = localInputState w
  /\ forall file_name p w0,
       btnStartDisabled (setLocalInputState uploading file_name p w0) = true.
Proof.
  intros Hmode. unfold btnStart_click. rewrite Hmode. cbn [Mode_eqb].
  assert (Hlog : log "!! 文件上传中，请稍后再开始任务" w
                 = withConsoleOutput
                     (consoleOutput w ++ ["!! 文件上传中，请稍后再开始任务"]) w).
  { unfold log. now rewrite logToConsole_discrete. }
  rewrite Hlog. repeat split.
  intros file_name p w0. cbn. apply orb_true_r.
Qed.

Lemma start_rejected_while_uploading_witness :
  let w := worldOf (videoUploadInput_change [{| name := "a.mp4" |}] (boot [])) in
  issued (btnStart_click w) = None
  /\ localInputState (worldOf (btnStart_click w)) = localInputState w.
Proof.
  intros w.
  destruct (start_rejected_while_uploading w eq_refl) as (_ & Hnone & Hsame & _).
  split; assumption.
Defined.

(** C7, as the code has it.  Clicked while the session is not Uploading,
    the start handler sends POST /start with the trimmed URL whenever that
    URL is not empty, be the session Ready, Empty or Error, and sends
    POST /start_local when it is empty; so /start_local goes out only for
    an empty trimmed URL.  Up to the call nothing on the page changes. *)
Theorem start_takes_url_path (w : World) :
  mode (localInputState w) <> uploading ->
  (Js.truthy (Js.trim (urlValue w)) = true ->
   btnStart_click w
   = AwaitApi w {| endpoint := "/start"; method := POST;
                   body := JsonUrl (Js.trim (urlValue w)) |}
       (startResult ">> 已按链接模式开始任务"))
  /\ (Js.trim (urlValue w) = "" ->
      btnStart_click w
      = AwaitApi w {| endpoint := "/start_local"; method := POST;
                      body := NoBody |}
          (startResult ">> 已按本地缓存模式开始任务"))
  /\ (forall req,
         issued (btnStart_click w) = Some req ->
         endpoint req = "/start_local" ->
         Js.trim (urlValue w) = "").
Proof.
  intros Hmode. unfold btnStart_click.
  destruct (Mode_eqb (mode (localInputState w)) uploading) eqn:E;
    [apply Mode_eqb_eq in E; contradiction|].
  split; [intros ->; reflexivity|].
  split; [intros ->; reflexivity|].
  intros req. destruct (Js.trim (urlValue w)) eqn:Eurl; [reflexivity|].
  cbn. intros [= <-]. discriminate.
Qed.

Lemma start_takes_url_path_witness :
  let readyWorld :=
    withUrlValue "https://example.com/v"
      (worldOf (settle {| name := "a.mp4" |}
                  (xhr_onload {| name := "a.mp4" |} 200 emptyObject (boot [])))) in
  mode (localInputState readyWorld) = ready
  /\ issued (btnStart_click readyWorld)
     = Some {| endpoint := "/start"; method := POST;
               body := JsonUrl "https://example.com/v" |}.
Proof.
  intros readyWorld. split; [reflexivity|].
  assert (Hmode : mode (localInputState readyWorld) <> uploading)
    by (vm_compute; discriminate).
  destruct (start_takes_url_path readyWorld Hmode) as (Hurl & _).
  rewrite Hurl; reflexivity.
Defined.

(** C7 as worded fails.  With a URL typed while a file is uploading, the
    start handler sends nothing; and a URL field that holds only blanks
    counts as empty, so the start goes to /start_local. *)
Lemma start_with_url_not_always_url_path :
  let busy :=
    withUrlValue "https://example.com/v"
      (worldOf (videoUploadInput_change [{| name := "a.mp4" |}] (boot []))) in
  let blank := withUrlValue "  " (boot []) in
  (Js.trim (urlValue busy) = "https://example.com/v"
   /\ issued (btnStart_click busy) = None)
  /\ (urlValue blank <> ""
      /\ issued (btnStart_click blank)
         = Some {| endpoint := "/start_local"; method := POST;
                   body := NoBody |}).
Proof.
  cbv zeta. repeat split. discriminate.
Qed.

(** ** The log channel *)

Lemma isDue_reconnect (w : World) (dt : Z) :
  isDue (now w + dt)
        {| due := now w + 3000; callback := CallConnectWebSocket |}
  = (3000 <=? dt)%Z.
Proof.
  unfold isDue. cbn [due].
  destruct (Z.leb_spec 3000 dt); [apply Z.leb_le | apply Z.leb_gt]; lia.
Qed.

Lemma sockets_elapse dt w :
  sockets (elapse dt w)
  = sockets w + List.length (filter (isDue (now w + dt)) (timers w)).
Proof. unfold elapse. now rewrite sockets_timers. Qed.

Lemma timers_elapse dt w :
  timers (elapse dt w)
  = filter (fun timer => negb (isDue (now w + dt) timer)) (timers w).
Proof. unfold elapse. now rewrite timers_timers. Qed.

(** C9. The close handler of the log channel marks the page offline and
    schedules one timeout, due 3000 ms later, that calls [connectWebSocket];
    it opens no socket itself.  Whatever else is pending, after [dt]
    milliseconds the closure accounts for one more socket exactly when
    [dt] is at least 3000, and its timeout is pending until then and gone
    afterwards.  The error handler schedules nothing.  The open handler
    appends one discrete entry, the connected notice, to the console. *)
Theorem reconnect_after_fixed_delay (w : World) :
  let reconnect :=
    {| due := now w + 3000; callback := CallConnectWebSocket |} in
  timers (ws_onclose w) = timers w ++ [reconnect]
  /\ sockets (ws_onclose w) = sockets w
  /\ online (ws_onclose w) = false
  /\ (forall dt,
         sockets (elapse dt (ws_onclose w))
         = sockets (elapse dt w) + (if (3000 <=? dt)%Z then 1 else 0))
  /\ (forall dt,
         timers (elapse dt (ws_onclose w))
         = timers (elapse dt w)
           ++ (if (3000 <=? dt)%Z then [] else [reconnect]))
  /\ (timers (ws_onerror w) = timers w /\ sockets (ws_onerror w) = sockets w)
  /\ (consoleOutput (ws_onopen w)
      = consoleOutput w ++ [">> 日志服务已连接"]
      /\ isDiscrete ">> 日志服务已连接" = true
      /\ online (ws_onopen w) = true)
  /\ consoleOutput (Legacy_ws_onopen w)
     = consoleOutput w ++ [">> 连接建立: 日志服务器已连接"].
Proof.
  intros reconnect.
  split; [reflexivity|]. split; [reflexivity|]. split; [reflexivity|].
  split.
  { intros dt. rewrite !sockets_elapse.
    change (timers (ws_onclose w)) with (timers w ++ [reconnect]).
    change (now (ws_onclose w)) with (now w).
    change (sockets (ws_onclose w)) with (sockets w).
    rewrite filter_app, length_app. cbn [filter].
    unfold reconnect. rewrite isDue_reconnect.
    destruct (3000 <=? dt)%Z; cbn [List.length]; lia. }
  split.
  { intros dt. rewrite !timers_elapse.
    change (timers (ws_onclose w)) with (timers w ++ [reconnect]).
    change (now (ws_onclose w)) with (now w).
    rewrite filter_app. cbn [filter].
    unfold reconnect. rewrite isDue_reconnect.
    now destruct (3000 <=? dt)%Z. }
  split; [split; reflexivity|].
  split.
  { split; [|split; reflexivity].
    unfold ws_onopen, log, updateConnectionStatus. cbn [consoleOutput withConsoleOutput withOnline].
    now apply logToConsole_discrete. }
  unfold Legacy_ws_onopen, updateConnectionStatus, log.
  cbn [consoleOutput withConsoleOutput withOnline].
  now apply logToConsole_discrete.
Qed.

(** The channel closes on a page with nothing pending: no reconnect within
    2999 ms, one at 3000 ms, and not a second one later. *)
Example reconnect_timeline :
  let closed := ws_onclose (boot []) in
  sockets closed = 1
  /\ sockets (elapse 0 closed) = 1
  /\ sockets (elapse 2999 closed) = 1
  /\ sockets (elapse 3000 closed) = 2
  /\ sockets (elapse 60000 (elapse 3000 closed)) = 2.
Proof. repeat split. Qed.

(** * Further properties of the page script *)

(** ** What the page keeps true on every run *)

Lemma clamp_progress p :
  (0 <= p <= 100)%Z ->
  Number.max (ofZ 0) (Number.min (ofZ 100) (orZero (ofZ p))) = ofZ p.
Proof.
  intros Hp. rewrite orZero_ofZ. unfold Number.min, Number.max, ofZ.
  destruct (Qle_bool (inject_Z 100) (inject_Z p)) eqn:E.
  - apply Qle_bool_iff in E. rewrite <- Zle_Qle in E.
    assert (p = 100%Z) by lia. subst. reflexivity.
  - destruct (Qle_bool (inject_Z 0) (inject_Z p)) eqn:E0; [reflexivity|].
    assert (H : (inject_Z 0 <= inject_Z p)%Q) by (rewrite <- Zle_Qle; lia).
    apply Qle_bool_iff in H. congruence.
Qed.

Lemma setLocalInputState_keeps m file_name p w :
  (0 <= p <= 100)%Z ->
  match m with
  | empty => file_name = "" /\ p = 0%Z
  | ready => p = 100%Z
  | error => p = 0%Z
  | uploading => True
  end ->
  sessionOk (localInputState (setLocalInputState m file_name (ofZ p) w))
  /\ viewInSync (setLocalInputState m file_name (ofZ p) w).
Proof.
  intros Hp Hm. split.
  - exists p. cbn -[orZero ofZ]. rewrite orZero_ofZ. now repeat split.
  - unfold viewInSync, setLocalInputState, renderLocalInputButton,
      syncButtonDisabledStates.
    cbn -[orZero ofZ Number.max Number.min]. rewrite !orZero_ofZ.
    repeat split.
    destruct m; try reflexivity.
    rewrite <- (orZero_ofZ p) at 1. now rewrite clamp_progress.
Qed.

Lemma setLocalInputState_orZero m file_name q p w :
  orZero q = ofZ p ->
  setLocalInputState m file_name q w = setLocalInputState m file_name (ofZ p) w.
Proof.
  intros Hq. unfold setLocalInputState. now rewrite Hq, orZero_ofZ.
Qed.

Lemma sameView_refl w : sameView w w.
Proof. now repeat split. Qed.

Lemma sameView_keeps w w' :
  sameView w w' ->
  sessionOk (localInputState w) /\ viewInSync w ->
  sessionOk (localInputState w') /\ viewInSync w'.
Proof.
  intros (Hs & Hr & Hb1 & Hb2 & Ht1 & Ht2) [Hok Hview].
  unfold viewInSync in *. rewrite Hs, Hr, Hb1, Hb2, Ht1, Ht2. now split.
Qed.

Lemma sameView_timers l w :
  sameView w (fold_left (fun acc timer => call (callback timer) acc) l w).
Proof.
  revert w. induction l as [|t l IH]; intros w; [apply sameView_refl|].
  cbn [fold_left].
  destruct (IH (call (callback t) w)) as (H1 & H2 & H3 & H4 & H5 & H6).
  unfold sameView. rewrite H1, H2, H3, H4, H5, H6.
  destruct (callback t). now repeat split.
Qed.

Lemma sameView_run s w :
  writesSession s = false ->
  (forall status, s <> StatusResult status) ->
  sameView w (run s w).
Proof.
  intros Hs Hstatus.
  destruct s; cbn [writesSession] in Hs; try discriminate; cbn [run];
    try (now repeat split).
  - unfold btnStart_click.
    destruct (Mode_eqb _ _); [now repeat split|].
    destruct (Js.truthy _); now repeat split.
  - destruct r; now repeat split.
  - now destruct (Hstatus reply).
  - unfold elapse.
    destruct (sameView_timers
                (filter (isDue (now w + dt)) (timers w))
                (withTimers
                   (filter (fun timer => negb (isDue (now w + dt) timer))
                           (timers w))
                   (withNow (now w + dt) w)))
      as (H1 & H2 & H3 & H4 & H5 & H6).
    unfold sameView. rewrite H1, H2, H3, H4, H5, H6. now repeat split.
Qed.

Lemma pageOk_boot children :
  sessionOk (localInputState (boot children)) /\ viewInSync (boot children).
Proof.
  unfold boot. apply setLocalInputState_keeps; [lia | now split].
Qed.

Lemma pageOk_run s w :
  sessionOk (localInputState w) /\ viewInSync w ->
  sessionOk (localInputState (run s w)) /\ viewInSync (run s w).
Proof.
  intros Hw.
  assert (Hlog : forall text w0,
             sessionOk (localInputState w0) /\ viewInSync w0 ->
             sessionOk (localInputState (log text w0)) /\ viewInSync (log text w0)).
  { intros text w0. apply sameView_keeps. now repeat split. }
  destruct s; cbn [run].
  - destruct files as [|file others]; [exact Hw|].
    cbn [videoUploadInput_change worldOf]. apply Hlog.
    apply setLocalInputState_keeps; [lia | exact I].
  - unfold xhr_upload_onprogress.
    destruct (lengthComputable event); cbn [negb]; [|exact Hw].
    rewrite (setLocalInputState_orZero _ _ _ _ _ (orZero_percentOf event)).
    apply setLocalInputState_keeps; [|exact I].
    pose proof (percentZ_range event). lia.
  - unfold xhr_onload.
    destruct ((200 <=? status)%Z && (status <? 300)%Z); cbn [fst].
    + apply setLocalInputState_keeps; [lia | exact I].
    + now destruct data.
  - exact Hw.
  - destruct s; cbn [uploadSettled refreshLocalInputState worldOf];
      apply Hlog; apply setLocalInputState_keeps; (lia || reflexivity).
  - exact Hw.
  - destruct r as [data|message]; cbn [refreshLocalInputState_result].
    + destruct (readyName data);
        apply setLocalInputState_keeps; (lia || reflexivity || now split).
    + apply Hlog. apply setLocalInputState_keeps; [lia | now split].
  - revert Hw. apply sameView_keeps, (sameView_run StartClicked);
      [reflexivity | discriminate].
  - revert Hw. apply sameView_keeps, (sameView_run (StartResult okLine r));
      [reflexivity | discriminate].
  - revert Hw. apply sameView_keeps. now repeat split.
  - revert Hw. apply sameView_keeps. now repeat split.
  - revert Hw. apply sameView_keeps. now repeat split.
  - revert Hw. apply sameView_keeps. now repeat split.
  - revert Hw. apply sameView_keeps. now repeat split.
  - unfold updateStatus_result.
    destruct reply as [reply|]; [|exact Hw].
    destruct (hasTasks reply); [|exact Hw].
    destruct Hw as [Hok (Hb1 & Hb2 & Ht1 & Ht2)]. split; [exact Hok|].
    unfold viewInSync, syncButtonDisabledStates.
    cbn. repeat split; assumption.
  - apply Hlog, Hw.
  - revert Hw. apply sameView_keeps, (sameView_run (TimePasses dt));
      [reflexivity | discriminate].
Qed.

Lemma pageOk_runAll (trace : list Stretch) (children : Console) :
  sessionOk (localInputState (runAll trace (boot children)))
  /\ viewInSync (runAll trace (boot children)).
Proof.
  induction trace as [|s trace IH] using rev_ind; [apply pageOk_boot|].
  unfold runAll in *. rewrite fold_left_app. cbn [fold_left].
  now apply pageOk_run.
Qed.

(** X1. On every run of the page from its start the session is well formed:
    its progress is an integer from 0 to 100, which is 0, with no file name,
    when the session is Empty, 100 when it is Ready and 0 when it is in
    Error. *)
Theorem session_always_well_formed (trace : list Stretch) (children : Console) :
  sessionOk (localInputState (runAll trace (boot children))).
Proof. apply pageOk_runAll. Qed.

(** X2. On every run of the page from its start the controls show the
    session: the start and select buttons are disabled exactly while a job
    runs or the session is Uploading, and the button text and the file label
    are the ones [renderLocalInputButton] gives for the session; the
    percentage on the button is the stored progress, which the clamp to
    0..100 never alters. *)
Theorem view_always_in_sync (trace : list Stretch) (children : Console) :
  viewInSync (runAll trace (boot children)).
Proof. apply pageOk_runAll. Qed.

(** X3. On every run of the page from its start a click on the select
    button opens the file picker exactly when no job runs and the session is
    not Uploading. *)
Theorem picker_opens_when_idle (trace : list Stretch) (children : Console) :
  let w := runAll trace (boot children) in
  btnSelectVideo_click w = true <->
  isTaskRunning w = false /\ mode (localInputState w) <> uploading.
Proof.
  intros w. destruct (pageOk_runAll trace children) as [_ (_ & Hb & _)].
  fold w in Hb. unfold btnSelectVideo_click. rewrite Hb.
  destruct (isTaskRunning w), (mode (localInputState w)); cbn;
    split; intros H; try discriminate H; try reflexivity;
    try (split; [reflexivity | discriminate]);
    destruct H as [H1 H2]; try discriminate H1; now contradiction H2.
Qed.

(** ** More on the log consolidator *)

Lemma split_nonempty s : Js.split s <> [].
Proof.
  destruct s as [|c s]; [discriminate|]. cbn [Js.split].
  destruct (Ascii.eqb c Js.newline); [discriminate|].
  now destruct (Js.split s).
Qed.

Lemma split_app_newline a b :
  Js.split (a ++ String Js.newline b)%string = Js.split a ++ Js.split b.
Proof.
  induction a as [|c a IH].
  - cbn [String.append Js.split]. now rewrite Ascii.eqb_refl.
  - cbn [String.append Js.split]. rewrite IH.
    destruct (Ascii.eqb c Js.newline); [reflexivity|].
    pose proof (split_nonempty a).
    now destruct (Js.split a).
Qed.

(** X4. Cutting a text at a line feed does not matter: logging the part
    before it and then the part after it leaves the console that logging the
    whole text leaves; in particular a line feed at the end of a text is
    without effect. *)
Theorem logToConsole_cut_at_newline (a b : string) (children : Console) :
  logToConsole (a ++ String Js.newline b)%string children
  = logToConsole b (logToConsole a children)
  /\ logToConsole (Js.line a) children = logToConsole a children.
Proof.
  assert (H : forall x y c,
             logToConsole (x ++ String Js.newline y)%string c
             = logToConsole y (logToConsole x c)).
  { intros x y c.
    now rewrite !logToConsole_lines, split_app_newline, fold_left_app. }
  split; [apply H|]. unfold Js.line. now rewrite H.
Qed.

Lemma noAdjacentProgress_snoc children line :
  noAdjacentProgress (children ++ [line])
  = noAdjacentProgress children
    && negb (trailingIsProgress children && isProgressLine line).
Proof.
  induction children as [|first rest IH]; [reflexivity|].
  destruct rest as [|second rest].
  - cbn. now rewrite andb_true_r.
  - change (noAdjacentProgress ((first :: second :: rest) ++ [line]))
      with (negb (isProgressLine first && isProgressLine second)
            && noAdjacentProgress ((second :: rest) ++ [line])).
    rewrite IH.
    change (noAdjacentProgress (first :: second :: rest))
      with (negb (isProgressLine first && isProgressLine second)
            && noAdjacentProgress (second :: rest)).
    change (trailingIsProgress (first :: second :: rest))
      with (trailingIsProgress (second :: rest)).
    now rewrite andb_assoc.
Qed.

Lemma noAdjacentProgress_logLine children line :
  noAdjacentProgress children = true ->
  noAdjacentProgress (logLine children line) = true.
Proof.
  intros Hc. destruct line as [|c line]; [exact Hc|].
  rewrite logLine_cases by reflexivity.
  destruct (isProgressLine (String c line)) eqn:Hp; cbn [andb].
  - destruct (trailingIsProgress children) eqn:Ht.
    + destruct (children_snoc_or_nil children) as [->|(rest & entry & ->)];
        [discriminate|].
      rewrite setLastTextContent_snoc.
      rewrite trailingIsProgress_snoc in Ht.
      rewrite noAdjacentProgress_snoc, Ht in Hc.
      rewrite noAdjacentProgress_snoc, Hp.
      now rewrite andb_true_r in *.
    + now rewrite noAdjacentProgress_snoc, Hc, Ht.
  - now rewrite noAdjacentProgress_snoc, Hc, Hp, andb_false_r.
Qed.

(** X5. The console never shows two progress-like entries next to each
    other: if it has none, no sequence of texts logged to it produces some;
    so it is on the console that starts empty. *)
Theorem console_never_stacks_progress (chunks : list string) (children : Console) :
  noAdjacentProgress children = true ->
  noAdjacentProgress (feed chunks children) = true.
Proof.
  rewrite feed_lines. revert children.
  induction (linesOf chunks) as [|line rest IH]; intros children Hc;
    [exact Hc|].
  cbn [fold_left]. now apply IH, noAdjacentProgress_logLine.
Qed.

Lemma console_never_stacks_progress_witness :
  noAdjacentProgress
    (feed [Js.line "10%"; "20%"; Js.line "done"; "3it/s"; "4it/s"] [])
  = true.
Proof. now apply console_never_stacks_progress. Defined.

Lemma length_logLine children line :
  List.length children <= List.length (logLine children line)
  <= S (List.length children).
Proof.
  destruct line as [|c line]; [cbn; lia|].
  rewrite logLine_cases by reflexivity.
  destruct (isProgressLine (String c line) && trailingIsProgress children) eqn:E.
  - destruct (children_snoc_or_nil children) as [->|(rest & entry & ->)].
    + now rewrite andb_false_r in E.
    + rewrite setLastTextContent_snoc, !length_app. cbn. lia.
  - rewrite length_app. cbn. lia.
Qed.

(** X6. Logging never removes an entry and adds at most one entry per
    non-empty line: the console after a sequence of texts has at least the
    entries it had and at most as many more as the texts have non-empty
    lines. *)
Theorem console_growth_bounds (chunks : list string) (children : Console) :
  List.length children <= List.length (feed chunks children)
  <= List.length children + List.length (linesOf chunks).
Proof.
  rewrite feed_lines. revert children.
  induction (linesOf chunks) as [|line rest IH]; intros children;
    [cbn; lia|].
  cbn [fold_left List.length].
  pose proof (IH (logLine children line)).
  pose proof (length_logLine children line). lia.
Qed.

Lemma fold_logLine_restart lines children :
  Forall (fun l => Js.truthy l = true) lines ->
  trailingIsProgress children = false ->
  fold_left logLine lines children = children ++ fold_left logLine lines [].
Proof.
  intros Hne Htrail. destruct lines as [|line rest].
  - cbn. now rewrite app_nil_r.
  - inversion Hne; subst. cbn [fold_left].
    rewrite (logLine_first_progress children) by assumption.
    rewrite (logLine_first_progress []) by (assumption || reflexivity).
    apply fold_logLine_prefix. discriminate.
Qed.

(** X7. A discrete trailing entry is a fresh start: on a console whose
    trailing entry is not progress-like, every sequence of texts adds
    exactly the entries it leaves on the empty console.  So after the clear
    button, the console is its notice followed by what the messages
    received since would have left on an empty console. *)
Theorem console_restarts_at_discrete_entry
    (chunks : list string) (children : Console) (w : World) :
  (trailingIsProgress children = false ->
   feed chunks children = children ++ feed chunks [])
  /\ consoleOutput (runAll (map SocketMessage chunks) (btnClearLog_click w))
     = ">> 屏幕已清空" :: feed chunks [].
Proof.
  assert (H : forall c, trailingIsProgress c = false ->
                        feed chunks c = c ++ feed chunks []).
  { intros c Hc. rewrite !feed_lines.
    apply fold_logLine_restart; [apply linesOf_truthy | exact Hc]. }
  split; [apply H|].
  assert (Hrun : forall msgs w0,
             consoleOutput (runAll (map SocketMessage msgs) w0)
             = feed msgs (consoleOutput w0)).
  { induction msgs as [|m msgs IH]; intros w0; [reflexivity|].
    cbn [map]. unfold runAll in *. cbn [fold_left]. rewrite IH. reflexivity. }
  rewrite Hrun.
  change (consoleOutput (btnClearLog_click w)) with [">> 屏幕已清空"].
  now rewrite H.
Qed.

Lemma console_restarts_at_discrete_entry_witness :
  feed ["10%"; "20%"; "done"] ["ready"] = ["ready"] ++ feed ["10%"; "20%"; "done"] [].
Proof.
  apply (console_restarts_at_discrete_entry ["10%"; "20%"; "done"] ["ready"]
           (boot [])).
  reflexivity.
Defined.

(** ** Byte-progress percentages at the ends *)

Lemma rne_positive q : (0 < q)%Q -> (0 < rne q)%Q.
Proof.
  intros H. rewrite rne_pos by assumption.
  apply Qmult_lt_0_compat; [|apply two_power_pos].
  pose proof (rne_significand q H).
  change 0%Q with (inject_Z 0). rewrite <- Zlt_Qlt. lia.
Qed.

Lemma percentZ_complete t :
  (0 < t)%N ->
  percentZ {| lengthComputable := true; loaded := t; total := t |} = 99%Z.
Proof.
  intros Ht. unfold percentZ. cbn [loaded total].
  set (x := rne (inject_Z (Z.of_N t))).
  assert (Hx : (0 < x)%Q).
  { apply rne_positive. change 0%Q with (inject_Z 0). rewrite <- Zlt_Qlt. lia. }
  destruct (Qeq_bool x 0) eqn:E.
  { apply Qeq_bool_iff in E. rewrite E in Hx. now apply Qlt_irrefl in Hx. }
  assert (H1 : (x / x == 1)%Q).
  { field. intros C. rewrite C in Hx. now apply Qlt_irrefl in Hx. }
  assert (H2 : (rne (rne (x / x) * 100) == 100)%Q).
  { assert (R1 : (rne (x / x) == 1)%Q).
    { apply Qeq_trans with (rne 1); [now apply rne_compat|].
      vm_compute. reflexivity. }
    apply Qeq_trans with (rne 100).
    - apply rne_compat. rewrite R1. reflexivity.
    - vm_compute. reflexivity. }
  rewrite (Qfloor_comp _ _ H2). reflexivity.
Qed.

Lemma percentZ_start t :
  percentZ {| lengthComputable := true; loaded := 0; total := t |} = 0%Z.
Proof.
  unfold percentZ. cbn [loaded total].
  change (rne (inject_Z (Z.of_N 0))) with 0%Q.
  destruct (Qeq_bool (rne (inject_Z (Z.of_N t))) 0); [reflexivity|].
  set (x := rne (inject_Z (Z.of_N t))).
  assert (H0 : rne (0 / x) = 0%Q).
  { apply rne_nonpos. unfold Qdiv. rewrite Qmult_0_l. apply Qle_refl. }
  rewrite H0. reflexivity.
Qed.

(** X8. The progress at the ends of a transfer.  A callback that reports
    no byte sent stores 0, whatever the total (0 of 0, where the quotient is
    NaN, included); a callback that reports all bytes of a non-empty file
    sent stores 99, not 100; and a positive count over a total of 0, where
    the quotient is Infinity, stores 99 as well. *)
Theorem upload_progress_at_the_ends (file : File) (w : World) (t : N) :
  (0 < t)%N ->
  let stored event :=
    progress (localInputState (xhr_upload_onprogress file event w)) in
  stored {| lengthComputable := true; loaded := 0; total := t |} = ofZ 0
  /\ stored {| lengthComputable := true; loaded := 0; total := 0 |} = ofZ 0
  /\ stored {| lengthComputable := true; loaded := t; total := t |} = ofZ 99
  /\ stored {| lengthComputable := true; loaded := t; total := 0 |} = ofZ 99.
Proof.
  intros Ht stored. unfold stored.
  rewrite !localInputState_onprogress by reflexivity. cbn [progress].
  rewrite !orZero_percentOf.
  rewrite !percentZ_start, percentZ_complete by assumption.
  repeat split. f_equal.
  unfold percentZ. cbn [loaded total]. change (rne (inject_Z (Z.of_N 0))) with 0%Q.
  change (Qeq_bool 0 0) with true. cbv iota.
  set (x := rne (inject_Z (Z.of_N t))).
  assert (Hx : (0 < x)%Q).
  { apply rne_positive. change 0%Q with (inject_Z 0). rewrite <- Zlt_Qlt. lia. }
  destruct (Qeq_bool x 0) eqn:E; [|reflexivity].
  apply Qeq_bool_iff in E. rewrite E in Hx. now apply Qlt_irrefl in Hx.
Qed.

Lemma upload_progress_at_the_ends_witness :
  progress
    (localInputState
       (xhr_upload_onprogress {| name := "a.mp4" |}
          {| lengthComputable := true; loaded := 1048576; total := 1048576 |}
          (boot [])))
  = ofZ 99.
Proof.
  destruct (upload_progress_at_the_ends {| name := "a.mp4" |} (boot []) 1048576)
    as (_ & _ & H & _); [reflexivity | exact H].
Defined.

(** ** The reconnect loop on every run *)

Lemma closures_snoc trace s :
  closures (trace ++ [s])
  = closures trace + match s with SocketClose => 1 | _ => 0 end.
Proof.
  unfold closures. rewrite filter_app, length_app.
  destruct s; cbn; lia.
Qed.

Lemma channel_frame s w :
  s <> SocketClose ->
  (forall dt, s <> TimePasses dt) ->
  sockets (run s w) = sockets w
  /\ timers (run s w) = timers w
  /\ now (run s w) = now w.
Proof.
  intros Hclose Htime.
  destruct s; cbn [run]; try (now repeat split).
  - now destruct files.
  - unfold xhr_upload_onprogress. now destruct (lengthComputable event).
  - unfold xhr_onload.
    destruct ((200 <=? status)%Z && (status <? 300)%Z); [now repeat split|].
    now destruct data.
  - now destruct s.
  - destruct r as [data|message]; cbn [refreshLocalInputState_result];
      [destruct (readyName data)|]; now repeat split.
  - unfold btnStart_click.
    destruct (Mode_eqb _ _); [now repeat split|].
    destruct (Js.truthy _); now repeat split.
  - now destruct r.
  - unfold updateStatus_result.
    destruct reply as [reply|]; [|now repeat split].
    destruct (hasTasks reply); now repeat split.
  - exfalso. now apply (Htime dt).
Qed.

Lemma now_timers l w :
  now (fold_left (fun acc timer => call (callback timer) acc) l w) = now w.
Proof.
  revert w. induction l as [|t l IH]; intros w; [reflexivity|].
  cbn [fold_left]. rewrite IH. now destruct (callback t).
Qed.

Lemma now_elapse dt w : now (elapse dt w) = (now w + dt)%Z.
Proof. unfold elapse. now rewrite now_timers. Qed.

Lemma channel_invariant trace children :
  let w := runAll trace (boot children) in
  sockets w + List.length (timers w) = 1 + closures trace
  /\ Forall (fun timer => (now w < due timer)%Z) (timers w)
  /\ (timeAdvances trace ->
      Forall (fun timer => (due timer <= now w + 3000)%Z) (timers w)).
Proof.
  induction trace as [|s trace IH] using rev_ind.
  { cbn. split; [reflexivity|]. split; [constructor|]. intros _. constructor. }
  cbv zeta in *. unfold runAll in *. rewrite fold_left_app. cbn [fold_left].
  set (w := fold_left (fun acc s0 => run s0 acc) trace (boot children)) in *.
  destruct IH as (Hcount & Hlow & Hhigh).
  rewrite closures_snoc.
  assert (Hadv : timeAdvances (trace ++ [s]) -> timeAdvances trace).
  { intros H dt Hin. apply H, in_or_app. now left. }
  destruct s;
    try (match goal with
         | |- context [run ?s0 w] =>
             destruct (channel_frame s0 w ltac:(discriminate)
                                     ltac:(intros; discriminate))
               as (Hs & Ht & Hn)
         end;
         rewrite Hs, Ht, Hn;
         split; [lia|]; split; [exact Hlow|];
         intros H; apply Hhigh, Hadv, H).
  - (* the channel closes *)
    cbn [run]. change (sockets (ws_onclose w)) with (sockets w).
    change (now (ws_onclose w)) with (now w).
    change (timers (ws_onclose w))
      with (timers w ++ [{| due := now w + 3000;
                            callback := CallConnectWebSocket |}]).
    rewrite length_app. cbn [List.length].
    split; [lia|]. split.
    + apply Forall_app. split; [exact Hlow|]. repeat constructor. cbn. lia.
    + intros H. apply Forall_app. split; [apply Hhigh, Hadv, H|].
      repeat constructor. cbn. lia.
  - (* time passes *)
    cbn [run]. rewrite sockets_elapse, timers_elapse, now_elapse.
    pose proof (filter_length (isDue (now w + dt)) (timers w)) as Hlen.
    split; [lia|]. split.
    + apply Forall_forall. intros timer Hin.
      apply filter_In in Hin as [_ Hin]. unfold isDue in Hin.
      apply negb_true_iff, Z.leb_gt in Hin. exact Hin.
    + intros H.
      assert (Hdt : (0 <= dt)%Z) by (apply H, in_or_app; right; now left).
      specialize (Hhigh (Hadv H)). rewrite Forall_forall in *.
      intros timer Hin. apply filter_In in Hin as [Hin _].
      specialize (Hhigh timer Hin). lia.
Qed.

(** X9. On every run of the page from its start, the sockets made so far
    and the reconnects still pending add up to one more than the closures
    of the channel: every closure leads to exactly one new socket, sooner or
    later, and nothing else makes one.  A pending reconnect is always due
    in the future and, as long as the clock does not run backwards, at most
    3000 ms ahead. *)
Theorem reconnects_match_closures (trace : list Stretch) (children : Console) :
  let w := runAll trace (boot children) in
  sockets w + List.length (timers w) = 1 + closures trace
  /\ Forall (fun timer => (now w < due timer)%Z) (timers w)
  /\ (timeAdvances trace ->
      Forall (fun timer => (due timer <= now w + 3000)%Z) (timers w)).
Proof. apply channel_invariant. Qed.

Lemma reconnects_match_closures_witness :
  let trace := [SocketOpen; SocketClose; TimePasses 1000; SocketError;
                SocketClose; TimePasses 2500] in
  let w := runAll trace (boot []) in
  sockets w = 2 /\ List.length (timers w) = 1
  /\ Forall (fun timer => (due timer <= now w + 3000)%Z) (timers w).
Proof.
  intros trace w.
  destruct (reconnects_match_closures trace []) as (_ & _ & Hhigh).
  split; [reflexivity|]. split; [reflexivity|].
  apply Hhigh. intros dt Hin. cbn in Hin.
  repeat (destruct Hin as [Hin|Hin]; [try discriminate Hin; injection Hin as <-; lia|]).
  contradiction.
Defined.

Lemma online_timers l w :
  online (fold_left (fun acc timer => call (callback timer) acc) l w) = true ->
  online w = true.
Proof.
  revert w. induction l as [|t l IH]; intros w; [easy|].
  cbn [fold_left]. intros H. apply IH in H. now destruct (callback t).
Qed.

Lemma online_elapse dt w : online (elapse dt w) = true -> online w = true.
Proof. unfold elapse. intros H. now apply online_timers in H. Qed.

(** X10. On every run of the page from its start the indicator shows
    ONLINE only if the channel has opened and has neither closed nor
    reported an error since. *)
Theorem online_only_after_open (trace : list Stretch) (children : Console) :
  online (runAll trace (boot children)) = true ->
  exists before after,
    trace = before ++ SocketOpen :: after
    /\ Forall (fun s => isSocketEvent s = false) after.
Proof.
  induction trace as [|s trace IH] using rev_ind; [discriminate|].
  unfold runAll in *. rewrite fold_left_app. cbn [fold_left].
  set (w := fold_left (fun acc s0 => run s0 acc) trace (boot children)) in *.
  intros Hon.
  assert (Hkeep : online w = true -> isSocketEvent s = false ->
                  exists before after,
                    trace ++ [s] = before ++ SocketOpen :: after
                    /\ Forall (fun s => isSocketEvent s = false) after).
  { intros Hw Hs. destruct (IH Hw) as (before & after & -> & Hafter).
    exists before, (after ++ [s]). split; [now rewrite <- app_assoc|].
    apply Forall_app. split; [exact Hafter | now repeat constructor]. }
  destruct s; cbn [run] in Hon;
    try (apply Hkeep; [|reflexivity]).
  - now destruct files.
  - unfold xhr_upload_onprogress in Hon. now destruct (lengthComputable event).
  - unfold xhr_onload in Hon.
    destruct ((200 <=? status)%Z && (status <? 300)%Z); [exact Hon|].
    now destruct data.
  - exact Hon.
  - now destruct s.
  - exact Hon.
  - destruct r as [data|message]; cbn [refreshLocalInputState_result] in Hon;
      [destruct (readyName data)|]; exact Hon.
  - unfold btnStart_click in Hon.
    destruct (Mode_eqb _ _); [exact Hon|].
    now destruct (Js.truthy _).
  - now destruct r.
  - exact Hon.
  - exists trace, []. split; [reflexivity | constructor].
  - exact Hon.
  - discriminate Hon.
  - discriminate Hon.
  - unfold updateStatus_result in Hon.
    destruct reply as [reply|]; [|exact Hon].
    now destruct (hasTasks reply).
  - exact Hon.
  - now apply online_elapse in Hon.
Qed.

Lemma online_only_after_open_witness :
  exists before after,
    [SocketClose; TimePasses 3000; SocketOpen; SocketMessage "10%"]
    = before ++ SocketOpen :: after
    /\ Forall (fun s => isSocketEvent s = false) after.
Proof.
  apply (online_only_after_open
           [SocketClose; TimePasses 3000; SocketOpen; SocketMessage "10%"] []).
  reflexivity.
Defined.

(** ** The commands *)

Lemma withConsoleOutput_same w : withConsoleOutput (consoleOutput w) w = w.
Proof. now destruct w. Qed.

Lemma OnlyLogs_Done_same w : OnlyLogs w (Done w).
Proof. rewrite <- (withConsoleOutput_same w) at 2. constructor. Qed.

Lemma OnlyLogs_Await_same w req k :
  (forall r w', OnlyLogs w' (k r w')) -> OnlyLogs w (AwaitApi w req k).
Proof.
  intros H. rewrite <- (withConsoleOutput_same w) at 2. now constructor.
Qed.

Lemma OnlyLogs_commandResult okLine failure r w :
  OnlyLogs w (commandResult okLine failure r w).
Proof.
  destruct r as [data|message]; cbn [commandResult].
  - destruct okLine; [constructor | apply OnlyLogs_Done_same].
  - constructor.
Qed.

Lemma OnlyLogs_startResult okLine r w : OnlyLogs w (startResult okLine r w).
Proof. destruct r; constructor. Qed.

(** X11. The commands write nothing but the console.  Whatever the
    replies, the click handlers of the start, continue, stop, reset, burn
    and subtitle-upload buttons, and the reply handler of retry-best, leave
    the session, the busy flag, the URL field, the buttons, the sockets and
    the timers as they find them.  A declined confirmation returns at once
    with no call and an unchanged page, and the continue, stop, reset and
    burn commands are silent on success. *)
Theorem commands_only_log (w : World) :
  (OnlyLogs w (btnStart_click w)
   /\ (forall confirmed,
          OnlyLogs w (btnContinue_click confirmed w)
          /\ OnlyLogs w (btnStop_click confirmed w)
          /\ OnlyLogs w (btnReset_click confirmed w))
   /\ OnlyLogs w (btnBurn_click w)
   /\ (forall files, OnlyLogs w (btnUpload_click files w))
   /\ (forall r, exists children,
          btnRetryBest_result r w = withConsoleOutput children w))
  /\ (btnContinue_click false w = Done w
      /\ btnStop_click false w = Done w
      /\ btnReset_click false w = Done w
      /\ btnUpload_click [] w = Done w)
  /\ (forall data w',
         resumeApi (btnContinue_click true w) (Fulfilled data) w' = Done w'
         /\ resumeApi (btnStop_click true w) (Fulfilled data) w' = Done w'
         /\ resumeApi (btnReset_click true w) (Fulfilled data) w' = Done w'
         /\ resumeApi (btnBurn_click w) (Fulfilled data) w' = Done w').
Proof.
  split; [|split; [now repeat split | now repeat split]].
  split.
  { unfold btnStart_click.
    destruct (Mode_eqb _ _); [constructor|].
    destruct (Js.truthy _); apply OnlyLogs_Await_same;
      intros; apply OnlyLogs_startResult. }
  split.
  { intros [|]; cbn; repeat split;
      try apply OnlyLogs_Done_same;
      apply OnlyLogs_Await_same; intros; apply OnlyLogs_commandResult. }
  split.
  { apply OnlyLogs_Await_same. intros. apply OnlyLogs_commandResult. }
  split.
  { intros [|file others]; [apply OnlyLogs_Done_same|].
    cbn [btnUpload_click]. unfold log at 1. constructor.
    intros. apply OnlyLogs_commandResult. }
  intros [message|message]; eexists; reflexivity.
Qed.

(** What [OnlyLogs] means for the page a handler leaves. *)
Lemma OnlyLogs_worldOf w t :
  OnlyLogs w t ->
  sameView w (worldOf t)
  /\ urlValue (worldOf t) = urlValue w
  /\ sockets (worldOf t) = sockets w
  /\ timers (worldOf t) = timers w.
Proof. intros H. destruct H; now repeat split. Qed.

(** ** A selected file and the start command *)

Lemma urlValue_progress file events w :
  urlValue (fold_left (fun acc event => xhr_upload_onprogress file event acc)
                      events w)
  = urlValue w.
Proof.
  revert w. induction events as [|event rest IH]; intros w; [reflexivity|].
  cbn [fold_left]. rewrite IH. unfold xhr_upload_onprogress.
  now destruct (lengthComputable event).
Qed.

(** X12. From file to job.  A file is selected, whatever the URL field
    held; any number of byte-progress callbacks arrive; the server accepts
    the upload.  A click on start then sends POST /start_local: selecting a
    file has cleared the URL field, and the session is Ready. *)
Theorem selected_file_starts_local
    (file : File) (others : list File) (events : list ProgressEvent)
    (status : Z) (data : UploadData) (w : World) :
  (200 <= status < 300)%Z ->
  let selected := worldOf (videoUploadInput_change (file :: others) w) in
  let sent :=
    fold_left (fun acc event => xhr_upload_onprogress file event acc)
              events selected in
  let cached := worldOf (settle file (xhr_onload file status data sent)) in
  urlValue cached = ""
  /\ mode (localInputState cached) = ready
  /\ issued (btnStart_click cached)
     = Some {| endpoint := "/start_local"; method := POST; body := NoBody |}.
Proof.
  intros Hstatus selected sent cached.
  assert (Hok : ((200 <=? status)%Z && (status <? 300)%Z) = true)
    by (apply andb_true_iff; split; [apply Z.leb_le | apply Z.ltb_lt]; lia).
  assert (Hurl : urlValue cached = "").
  { unfold cached, xhr_onload. rewrite Hok.
    cbn [settle uploadSettled refreshLocalInputState worldOf].
    change (urlValue sent = ""). unfold sent. now rewrite urlValue_progress. }
  assert (Hmode : mode (localInputState cached) = ready).
  { unfold cached, xhr_onload. now rewrite Hok. }
  split; [exact Hurl|]. split; [exact Hmode|].
  unfold btnStart_click. rewrite Hmode, Hurl. reflexivity.
Qed.

Lemma selected_file_starts_local_witness :
  let file := {| name := "a.mp4" |} in
  let selected :=
    worldOf (videoUploadInput_change [file]
               (withUrlValue "https://example.com/v" (boot []))) in
  let sent :=
    fold_left (fun acc event => xhr_upload_onprogress file event acc)
              [{| lengthComputable := true; loaded := 40; total := 100 |}]
              selected in
  let cached := worldOf (settle file (xhr_onload file 201 emptyObject sent)) in
  issued (btnStart_click cached)
  = Some {| endpoint := "/start_local"; method := POST; body := NoBody |}.
Proof.
  intros file selected sent cached.
  destruct (selected_file_starts_local file []
              [{| lengthComputable := true; loaded := 40; total := 100 |}]
              201 emptyObject
              (withUrlValue "https://example.com/v" (boot [])))
    as (_ & _ & H); [lia | exact H].
Defined.

(** X13. An upload whose reply cannot be read.  When the reply to the upload
    is empty or is not JSON, a 2xx status still makes the session Ready,
    under the selected file's own name, and any other status makes it Error
    with the message "HTTP" and the status. *)
Theorem upload_with_unreadable_reply
    (file : File) (status : Z) (raw : string) (parsed : option UploadData)
    (w : World) :
  raw = "" \/ parsed = None ->
  let loaded := xhr_onload file status (xhr_data raw parsed) w in
  ((200 <= status < 300)%Z ->
   localInputState (worldOf (settle file loaded))
   = {| mode := ready; fileName := name file; progress := ofZ 100 |})
  /\ (~ (200 <= status < 300)%Z ->
      snd loaded = Some (Reject ("HTTP " ++ statusText status)%string)
      /\ localInputState (worldOf (settle file loaded))
         = {| mode := error; fileName := name file; progress := ofZ 0 |}).
Proof.
  intros Hraw loaded.
  assert (Hdata : xhr_data raw parsed = emptyObject).
  { unfold xhr_data. destruct Hraw as [-> | ->]; [reflexivity|].
    now destruct (Js.truthy raw). }
  unfold loaded, xhr_onload. rewrite Hdata. split; intros Hstatus.
  - replace ((200 <=? status)%Z && (status <? 300)%Z) with true
      by (symmetry; apply andb_true_iff;
          split; [apply Z.leb_le | apply Z.ltb_lt]; lia).
    reflexivity.
  - replace ((200 <=? status)%Z && (status <? 300)%Z) with false.
    + split; reflexivity.
    + symmetry. apply andb_false_iff.
      destruct (Z.leb_spec 200 status); [right | now left].
      apply Z.ltb_ge. lia.
Qed.

Lemma upload_with_unreadable_reply_witness :
  let file := {| name := "a.mp4" |} in
  snd (xhr_onload file 502 (xhr_data "<html>Bad Gateway</html>" None) (boot []))
  = Some (Reject "HTTP 502").
Proof.
  intros file.
  destruct (upload_with_unreadable_reply file 502 "<html>Bad Gateway</html>"
              None (boot []) (or_intror eq_refl))
    as (_ & H).
  destruct H as [H _]; [lia | exact H].
Defined.

(** ** [apiCall] *)

Section ApiCallFacts.

Context {J : Type} (reader : JsonReader J).

(** X14. [apiCall] returns a payload only for a response whose status is
    from 200 to 299.  For any other status it throws: with a JSON body the
    body's message, with a plain body the body itself, and "HTTP" with the
    status when there is neither.  A body that is announced as JSON and
    does not parse throws the parse error whatever the status, and a
    response that is ok with an empty plain body returns null. *)
Theorem apiCall_returns_only_when_ok (fetched : Fetched J) :
  (forall payload,
      apiCall_settle reader fetched = Returned payload ->
      exists res, fetched = FetchResponded res /\ resOk res = true)
  /\ (forall res,
         fetched = FetchResponded res ->
         resOk res = false ->
         exists message,
           apiCall_settle reader fetched = Thrown message
           /\ (Js.includes "application/json"
                 (match resContentType res with Some t => t | None => "" end)
               = false ->
               message = if Js.truthy (resText res) then resText res
                         else ("HTTP " ++ statusText (resStatus res))%string)
           /\ (forall v,
                  Js.includes "application/json"
                    (match resContentType res with Some t => t | None => "" end)
                  = true ->
                  resJson res = JsonValue v ->
                  message = match jsonMessage reader v with
                            | Some m => m
                            | None => ("HTTP " ++ statusText (resStatus res))%string
                            end))
  /\ (forall res message,
         fetched = FetchResponded res ->
         Js.includes "application/json"
           (match resContentType res with Some t => t | None => "" end) = true ->
         resJson res = JsonError message ->
         apiCall_settle reader fetched = Thrown message)
  /\ (forall res,
         fetched = FetchResponded res ->
         resOk res = true ->
         Js.includes "application/json"
           (match resContentType res with Some t => t | None => "" end) = false ->
         resText res = "" ->
         apiCall_settle reader fetched = Returned PayloadNull).
Proof.
  split.
  { intros payload. destruct fetched as [message|res]; [discriminate|].
    cbn [apiCall_settle]. unfold apiCall_finish. intros H.
    exists res. split; [reflexivity|].
    destruct (resOk res); [reflexivity|]. cbn [negb] in H.
    destruct (Js.includes _ _); [destruct (resJson res)|]; discriminate. }
  split.
  { intros res -> Hok. cbn [apiCall_settle]. unfold apiCall_finish.
    rewrite Hok. cbn [negb].
    destruct (Js.includes _ _) eqn:Hjson.
    - destruct (resJson res) as [message|v] eqn:Hbody.
      + exists message. split; [reflexivity|]. split; [discriminate|].
        intros v _ Hv. congruence.
      + eexists. split; [reflexivity|]. split; [discriminate|].
        intros v' _ Hv. now replace v' with v by congruence.
    - eexists. split; [reflexivity|]. split; [|discriminate].
      intros _. destruct (Js.truthy (resText res)) eqn:Ht; cbn; [|reflexivity].
      now rewrite Ht. }
  split.
  { intros res message -> Hjson Hbody. cbn [apiCall_settle].
    now rewrite Hjson, Hbody. }
  intros res -> Hok Hjson Htext. cbn [apiCall_settle]. unfold apiCall_finish.
  now rewrite Hjson, Hok, Htext.
Qed.

(** X15. Only a JSON reply makes the session Ready.  When [fetch] delivers
    a response with an ok status and a JSON content type whose body parses
    to a value with state "ready" and a non-empty file name, the pull
    leaves the session Ready with that name and progress 100.  A session
    that is Ready after the pull has such a response behind it, and its
    name is the reply's.  In every other case (no response, another
    status, a plain or unparsable body, another state, no name) the pull
    leaves the session Empty with no name and progress 0. *)
Theorem pull_ready_needs_json_reply (fetched : Fetched J) (w : World) :
  let after :=
    localInputState
      (refreshLocalInputState_result
         (pullResult reader (apiCall_settle reader fetched)) w) in
  let announced res v nm :=
    fetched = FetchResponded res
    /\ resOk res = true
    /\ Js.includes "application/json"
         (match resContentType res with Some t => t | None => "" end) = true
    /\ resJson res = JsonValue v
    /\ jsonState reader v = Some "ready"
    /\ jsonFileName reader v = Some nm
    /\ nm <> "" in
  (forall res v nm,
      announced res v nm ->
      after = {| mode := ready; fileName := nm; progress := ofZ 100 |})
  /\ (mode after = ready ->
      exists res v, announced res v (fileName after))
  /\ ((forall res v nm, ~ announced res v nm) ->
      after = {| mode := empty; fileName := ""; progress := ofZ 0 |}).
Proof.
  intros after announced.
  assert (Hif : forall res v nm,
             announced res v nm ->
             after = {| mode := ready; fileName := nm; progress := ofZ 100 |}).
  { intros res v nm (-> & Hok & Hjson & Hbody & Hstate & Hfile & Hne).
    unfold after. rewrite localInputState_refresh_result.
    cbn [apiCall_settle]. unfold apiCall_finish.
    rewrite Hjson, Hbody, Hok. cbn [negb pullResult stateReplyOf].
    assert (Hname : readyName
                      (Some {| state := jsonState reader v;
                               file_name := jsonFileName reader v |})
                    = Some nm).
    { apply readyName_spec. eexists. split; [reflexivity|]. now repeat split. }
    now rewrite Hname. }
  assert (Honly : mode after = ready ->
                  exists res v, announced res v (fileName after)).
  { unfold after, announced. rewrite localInputState_refresh_result.
    destruct fetched as [message|res]; [discriminate|].
    cbn [apiCall_settle]. unfold apiCall_finish.
    destruct (Js.includes _ _) eqn:Hjson.
    - destruct (resJson res) as [message|v] eqn:Hbody; [discriminate|].
      destruct (resOk res) eqn:Hok; [|discriminate].
      cbn [negb pullResult stateReplyOf].
      destruct (readyName _) as [nm|] eqn:Hname; [|discriminate].
      intros _. apply readyName_spec in Hname
        as (reply & [= <-] & Hstate & Hfile & Hne).
      cbn [state file_name] in Hstate, Hfile.
      exists res, v. cbn [fileName]. now repeat split.
    - destruct (resOk res); cbn [negb pullResult]; [|discriminate].
      destruct (Js.truthy (resText res)); discriminate. }
  split; [exact Hif|]. split; [exact Honly|].
  intros Hnone.
  destruct (mode_refresh_result
              (pullResult reader (apiCall_settle reader fetched)) w) as [E|E].
  - destruct (Honly E) as (res & v & H). now destruct (Hnone _ _ _ H).
  - revert E. fold after. unfold after.
    rewrite localInputState_refresh_result.
    destruct (pullResult reader (apiCall_settle reader fetched)) as [data|message];
      [|reflexivity].
    destruct (readyName data); [discriminate | reflexivity].
Qed.

End ApiCallFacts.

Lemma pull_ready_needs_json_reply_witness :
  let reader :=
    {| jsonMessage := fun _ : string * string => None;
       jsonState := fun v => Some (fst v);
       jsonFileName := fun v => Some (snd v);
       jsonFiles := fun _ => FilesNoArray |} in
  let res :=
    {| resStatus := 200; resContentType := Some "application/json";
       resText := ""; resJson := JsonValue ("ready", "a.mp4") |} in
  localInputState
    (refreshLocalInputState_result
       (pullResult reader (apiCall_settle reader (FetchResponded res)))
       (boot []))
  = {| mode := ready; fileName := "a.mp4"; progress := ofZ 100 |}.
Proof.
  intros reader res.
  destruct (pull_ready_needs_json_reply reader (FetchResponded res) (boot []))
    as (H & _ & _).
  apply (H res ("ready", "a.mp4") "a.mp4").
  repeat split; (reflexivity || discriminate).
Defined.

Lemma apiCall_returns_only_when_ok_witness :
  let reader :=
    {| jsonMessage := fun v : string => if Js.truthy v then Some v else None;
       jsonState := fun _ => None; jsonFileName := fun _ => None;
       jsonFiles := fun _ => FilesNoArray |} in
  let res :=
    {| resStatus := 404; resContentType := Some "text/plain; charset=utf-8";
       resText := "Not Found"; resJson := JsonError "Unexpected token N" |} in
  exists message,
    apiCall_settle reader (FetchResponded res) = Thrown message
    /\ message = "Not Found".
Proof.
  intros reader res.
  destruct (apiCall_returns_only_when_ok reader (FetchResponded res))
    as (_ & H & _).
  destruct (H res eq_refl eq_refl) as (message & Hthrown & Hplain & _).
  exists message. split; [exact Hthrown|].
  now rewrite Hplain.
Defined.

(** ** The file list *)

Lemma hexDigits_read_back c :
  ascii_of_nat (hexValue (hexDigit (nat_of_ascii c / 16)) * 16
                + hexValue (hexDigit (nat_of_ascii c mod 16)))
  = c.
Proof.
  destruct c as [[] [] [] [] [] [] [] []]; vm_compute; reflexivity.
Qed.

Lemma hexDigits_unreserved c :
  isUnreserved (hexDigit (nat_of_ascii c / 16)) = true
  /\ isUnreserved (hexDigit (nat_of_ascii c mod 16)) = true.
Proof.
  destruct c as [[] [] [] [] [] [] [] []]; vm_compute; split; reflexivity.
Qed.

Lemma encodeURIComponent_chars s :
  Forall (fun c => isUnreserved c = true \/ c = "%"%char)
         (list_ascii_of_string (encodeURIComponent s)).
Proof.
  induction s as [|c rest IH]; [constructor|].
  cbn [encodeURIComponent].
  destruct (isUnreserved c) eqn:E.
  - cbn [list_ascii_of_string]. constructor; [now left | exact IH].
  - unfold percentEncoded. cbn [String.append list_ascii_of_string].
    destruct (hexDigits_unreserved c) as [Hh Hl].
    constructor; [now right|]. constructor; [now left|].
    constructor; [now left | exact IH].
Qed.

(** X16. The download link of a file is [API_BASE], "/download/" and one
    path segment: the encoded name consists of letters, digits, the marks
    [- _ . ! ~ * ' ( )] and percent escapes only, so no file name can put a
    slash, a question mark, a hash, a blank, a quote or an angle bracket
    into the link. *)
Theorem download_link_is_one_segment (base file_name : string) :
  downloadLink base file_name
  = (base ++ "/download/" ++ encodeURIComponent file_name)%string
  /\ Forall (fun c => isUnreserved c = true \/ c = "%"%char)
            (list_ascii_of_string (encodeURIComponent file_name))
  /\ forall c,
       In c ["/"; "?"; "#"; " "; "&"; "="; "034"; "<"; ">"; "\"]%char ->
       ~ In c (list_ascii_of_string (encodeURIComponent file_name)).
Proof.
  split; [reflexivity|]. split; [apply encodeURIComponent_chars|].
  intros c Hc Hin.
  pose proof (encodeURIComponent_chars file_name) as H.
  rewrite Forall_forall in H. specialize (H c Hin).
  cbn [In] in Hc.
  repeat (destruct Hc as [<-|Hc]; [destruct H as [H|H]; discriminate H|]).
  contradiction.
Qed.

Lemma download_link_is_one_segment_witness :
  ~ In "/"%char
       (list_ascii_of_string (encodeURIComponent "../../etc/passwd?x=1#top")).
Proof.
  destruct (download_link_is_one_segment "http://localhost:8501/api"
              "../../etc/passwd?x=1#top") as (_ & _ & H).
  apply H. now left.
Defined.

Example downloadLink_sample :
  downloadLink "http://localhost:8501/api" "../a b/字幕.srt"
  = "http://localhost:8501/api/download/..%2Fa%20b%2F%E5%AD%97%E5%B9%95.srt".
Proof. reflexivity. Qed.

Lemma append_cancel_l (p a b : string) :
  (p ++ a)%string = (p ++ b)%string -> a = b.
Proof.
  induction p as [|c p IH]; [easy|].
  cbn [String.append]. intros [= H]. now apply IH.
Qed.

Lemma encodeURIComponent_injective a b :
  encodeURIComponent a = encodeURIComponent b -> a = b.
Proof.
  revert b. induction a as [|c1 a IH]; intros [|c2 b]; cbn [encodeURIComponent].
  - reflexivity.
  - destruct (isUnreserved c2); discriminate.
  - destruct (isUnreserved c1); discriminate.
  - destruct (isUnreserved c1) eqn:E1, (isUnreserved c2) eqn:E2;
      unfold percentEncoded; cbn [String.append].
    + intros [= -> H]. f_equal. now apply IH.
    + intros [= -> _]. discriminate E1.
    + intros [= <- _]. discriminate E2.
    + intros [= Hh Hl H].
      assert (Hh' : hexDigit (nat_of_ascii c1 / 16)
                    = hexDigit (nat_of_ascii c2 / 16)) by exact Hh.
      assert (Hl' : hexDigit (nat_of_ascii c1 mod 16)
                    = hexDigit (nat_of_ascii c2 mod 16)) by exact Hl.
      f_equal; [|now apply IH].
      rewrite <- (hexDigits_read_back c1), Hh', Hl'.
      apply hexDigits_read_back.
Qed.

Lemma length_rowsOf base entries :
  List.length (rowsOf base entries) <= List.length entries.
Proof.
  induction entries as [|[|entryName] rest IH]; cbn; lia.
Qed.

Lemma rowsOf_named base names :
  rowsOf base (map (fun n => Entry (Some n)) names)
  = map (fun n => {| rowName := n; rowHref := downloadLink base n |}) names.
Proof.
  induction names as [|n rest IH]; [reflexivity|].
  cbn [map rowsOf]. now rewrite IH.
Qed.

(** X17. Files with different names get different link texts.  In the rows
    made from named entries with pairwise distinct names, the texts given
    to [href] are pairwise distinct: the escapes can be read back, so the
    text of a link tells the name it was made of.  An entry without a name
    is the exception: it shows an empty name and gets the link text of a
    file named "undefined".  (The texts are compared as the script assigns
    them, before the browser resolves them.) *)
Theorem download_links_tell_files_apart (base : string) :
  (forall names,
      NoDup names ->
      NoDup (map rowHref (rowsOf base (map (fun n => Entry (Some n)) names))))
  /\ (forall a b, downloadLink base a = downloadLink base b -> a = b)
  /\ map rowHref (rowsOf base [Entry None; Entry (Some "undefined")])
     = [downloadLink base "undefined"; downloadLink base "undefined"].
Proof.
  assert (Hinj : forall a b, downloadLink base a = downloadLink base b -> a = b).
  { unfold downloadLink. intros a b H.
    apply append_cancel_l, append_cancel_l in H.
    now apply encodeURIComponent_injective. }
  split; [|split; [exact Hinj | reflexivity]].
  intros names Hnames. rewrite rowsOf_named, map_map. cbn [rowHref].
  induction Hnames as [|n rest Hn Hrest IH]; [constructor|].
  cbn [map]. constructor; [|exact IH].
  rewrite in_map_iff. intros (m & Hm & Hin).
  apply Hinj in Hm. now subst m.
Qed.

Lemma download_links_tell_files_apart_witness :
  NoDup (map rowHref
           (rowsOf "http://localhost:8501/api"
              [Entry (Some "a b.srt"); Entry (Some "a%20b.srt");
               Entry (Some "a+b.srt")])).
Proof.
  destruct (download_links_tell_files_apart "http://localhost:8501/api")
    as (H & _ & _).
  apply (H ["a b.srt"; "a%20b.srt"; "a+b.srt"]).
  repeat constructor; cbn [In]; intros H0;
    repeat (destruct H0 as [H0|H0]; [discriminate H0|]); exact H0.
Defined.

Section FileListFacts.

Context {J : Type} (reader : JsonReader J).

(** X18. What a reply to GET /files does to the file list.  A failed call
    (no response, a status that is not ok, an unparsable JSON body) leaves
    the list as it is, and so does an ok reply with an empty plain body; an
    ok reply with a non-empty plain body empties it; an ok JSON array of
    named files replaces it, whatever it held, by one row per file, in
    order, each with its name and download link; and no reply makes more
    rows than it has entries. *)
Theorem updateFiles_by_reply
    (base : string) (fetched : Fetched J) (fileList : list FileRow) :
  let after :=
    updateFiles_result base
      (filesReplyOf reader (apiCall_settle reader fetched)) fileList in
  (forall message, apiCall_settle reader fetched = Thrown message ->
                   after = fileList)
  /\ (forall res,
         fetched = FetchResponded res ->
         resOk res = true ->
         Js.includes "application/json"
           (match resContentType res with Some t => t | None => "" end) = false ->
         after = if Js.truthy (resText res) then [] else fileList)
  /\ (forall res v names,
         fetched = FetchResponded res ->
         resOk res = true ->
         Js.includes "application/json"
           (match resContentType res with Some t => t | None => "" end) = true ->
         resJson res = JsonValue v ->
         jsonFiles reader v = FilesArray (map (fun n => Entry (Some n)) names) ->
         after
         = map (fun n => {| rowName := n; rowHref := downloadLink base n |})
               names)
  /\ (forall res v entries,
         fetched = FetchResponded res ->
         resJson res = JsonValue v ->
         jsonFiles reader v = FilesArray entries ->
         after = fileList \/ List.length after <= List.length entries).
Proof.
  intros after. unfold after. split.
  { intros message ->. reflexivity. }
  split.
  { intros res -> Hok Hjson. cbn [apiCall_settle]. unfold apiCall_finish.
    rewrite Hjson, Hok. cbn [negb].
    now destruct (Js.truthy (resText res)). }
  split.
  { intros res v names -> Hok Hjson Hbody Hfiles.
    cbn [apiCall_settle]. unfold apiCall_finish.
    rewrite Hjson, Hbody, Hok. cbn [negb filesReplyOf updateFiles_result].
    rewrite Hfiles. apply rowsOf_named. }
  intros res v entries -> Hbody Hfiles.
  cbn [apiCall_settle]. unfold apiCall_finish. rewrite Hbody.
  destruct (Js.includes _ _).
  - destruct (resOk res); cbn [negb filesReplyOf updateFiles_result];
      [|now left].
    rewrite Hfiles. right. apply length_rowsOf.
  - destruct (resOk res); cbn [negb]; [|now left].
    destruct (Js.truthy (resText res));
      cbn [filesReplyOf updateFiles_result]; [right; cbn; lia | now left].
Qed.

End FileListFacts.

Lemma updateFiles_by_reply_witness :
  let reader :=
    {| jsonMessage := fun _ : list string => None;
       jsonState := fun _ => None; jsonFileName := fun _ => None;
       jsonFiles := fun names => FilesArray (map (fun n => Entry (Some n)) names) |} in
  let res :=
    {| resStatus := 200; resContentType := Some "application/json";
       resText := ""; resJson := JsonValue ["out.mp4"; "out.srt"] |} in
  updateFiles_result "/api"
    (filesReplyOf reader (apiCall_settle reader (FetchResponded res)))
    [{| rowName := "old.mp4"; rowHref := "/api/download/old.mp4" |}]
  = [{| rowName := "out.mp4"; rowHref := "/api/download/out.mp4" |};
     {| rowName := "out.srt"; rowHref := "/api/download/out.srt" |}].
Proof.
  intros reader res.
  destruct (updateFiles_by_reply reader "/api" (FetchResponded res)
              [{| rowName := "old.mp4"; rowHref := "/api/download/old.mp4" |}])
    as (_ & _ & H & _).
  apply (H res ["out.mp4"; "out.srt"] ["out.mp4"; "out.srt"]); reflexivity.
Defined.

(** ** The older script: selection and start *)

Lemma Legacy_selection_step nullReadText s p :
  (forall file,
      LegacyPage.uploadedVideoFile p = Some file ->
      Js.trim (LegacyPage.urlValue p) = ""
      /\ LegacyPage.selectedVideoName p = name file) ->
  forall file,
    LegacyPage.uploadedVideoFile (LegacyPage.run nullReadText s p) = Some file ->
    Js.trim (LegacyPage.urlValue (LegacyPage.run nullReadText s p)) = ""
    /\ LegacyPage.selectedVideoName (LegacyPage.run nullReadText s p) = name file.
Proof.
  intros Hp file. destruct s; cbn [LegacyPage.run].
  - destruct files as [|f others];
      cbn [LegacyPage.videoUploadInput_change LegacyPage.uploadedVideoFile
           LegacyPage.withFile LegacyPage.withUrl LegacyPage.log
           LegacyPage.urlValue LegacyPage.selectedVideoName];
      [discriminate|].
    intros [= <-]. split; reflexivity.
  - unfold LegacyPage.elUrl_input.
    destruct (Js.truthy (Js.trim v)) eqn:E;
      cbn [LegacyPage.uploadedVideoFile LegacyPage.withFile LegacyPage.withUrl
           LegacyPage.urlValue LegacyPage.selectedVideoName];
      [discriminate|].
    intros Hf. split; [|now apply Hp].
    destruct (Js.trim v); [reflexivity | discriminate E].
  - unfold LegacyPage.btnStart_click.
    destruct (LegacyPage.uploadedVideoFile p) eqn:Ef.
    + cbn. rewrite Ef. apply Hp.
    + destruct (Js.truthy _); cbn; rewrite Ef; discriminate.
  - destruct r as [[|text]|message]; cbn; apply Hp.
  - destruct r as [reply|message]; cbn; [discriminate | apply Hp].
  - destruct r as [reply|message]; cbn; apply Hp.
  - cbn. apply Hp.
Qed.

(** X19. In the older page a selected file and a URL never stand
    together: on every run from the start of the script, whenever a file is
    remembered for upload the URL field is empty once trimmed, and the file
    label shows that file's name. *)
Theorem Legacy_file_and_url_exclude
    (nullReadText url label : string) (children : Console)
    (trace : list LegacyPage.Stretch) (file : File) :
  let p := LegacyPage.runAll nullReadText trace
             (LegacyPage.start url label children) in
  LegacyPage.uploadedVideoFile p = Some file ->
  Js.trim (LegacyPage.urlValue p) = ""
  /\ LegacyPage.selectedVideoName p = name file.
Proof.
  cbv zeta. revert file.
  induction trace as [|s trace IH] using rev_ind; [discriminate|].
  unfold LegacyPage.runAll in *. rewrite fold_left_app. cbn [fold_left].
  now apply Legacy_selection_step.
Qed.

Lemma Legacy_file_and_url_exclude_witness :
  let p :=
    LegacyPage.runAll "null"
      [LegacyPage.UrlEdited "https://example.com/v";
       LegacyPage.SelectFiles [{| name := "a.mp4" |}];
       LegacyPage.StartClicked]
      (LegacyPage.start "" "" []) in
  Js.trim (LegacyPage.urlValue p) = ""
  /\ LegacyPage.selectedVideoName p = "a.mp4".
Proof.
  intros p.
  apply (Legacy_file_and_url_exclude "null" "" "" []
           [LegacyPage.UrlEdited "https://example.com/v";
            LegacyPage.SelectFiles [{| name := "a.mp4" |}];
            LegacyPage.StartClicked]
           {| name := "a.mp4" |}).
  reflexivity.
Defined.

(** X20. The older start command.  With neither a file nor a URL it sends
    nothing.  With a file it sends that file to /upload_video first;
    /start_local follows only on a reply to the upload that is fulfilled
    and not null, and never after a failed upload; and the file stays
    selected through every failure: it is forgotten only when /start_local
    has succeeded. *)
Theorem Legacy_start_uploads_then_starts
    (nullReadText : string) (p : LegacyPage.Page) :
  (LegacyPage.uploadedVideoFile p = None ->
   Js.trim (LegacyPage.urlValue p) = "" ->
   LegacyPage.issued (LegacyPage.btnStart_click nullReadText p) = None)
  /\ (forall file,
         LegacyPage.uploadedVideoFile p = Some file ->
         LegacyPage.issued (LegacyPage.btnStart_click nullReadText p)
         = Some {| endpoint := "/upload_video"; method := POST;
                   body := FormFile file |})
  /\ (forall r p',
         match LegacyPage.issued (LegacyPage.afterUpload nullReadText r p') with
         | Some req =>
             req = {| endpoint := "/start_local"; method := POST;
                      body := NoBody |}
             /\ exists text, r = LegacyPage.Fulfilled (LegacyPage.ReplyValue text)
         | None =>
             (r = LegacyPage.Fulfilled LegacyPage.ReplyNull
              \/ exists message, r = LegacyPage.Rejected message)
         end
         /\ LegacyPage.uploadedVideoFile
              (LegacyPage.worldOf (LegacyPage.afterUpload nullReadText r p'))
            = LegacyPage.uploadedVideoFile p')
  /\ (forall r p',
         LegacyPage.uploadedVideoFile
           (LegacyPage.worldOf (LegacyPage.afterStartLocal r p'))
         = match r with
           | LegacyPage.Fulfilled _ => None
           | LegacyPage.Rejected _ => LegacyPage.uploadedVideoFile p'
           end).
Proof.
  split.
  { intros Hf Hurl. unfold LegacyPage.btnStart_click. now rewrite Hf, Hurl. }
  split.
  { intros file Hf. unfold LegacyPage.btnStart_click. now rewrite Hf. }
  split.
  { intros [[|text]|message] p'; cbn; split; eauto. }
  intros [reply|message] p'; reflexivity.
Qed.

Lemma Legacy_start_uploads_then_starts_witness :
  LegacyPage.issued
    (LegacyPage.btnStart_click "null"
       (LegacyPage.videoUploadInput_change [{| name := "a.mp4" |}]
          (LegacyPage.start "" "" [])))
  = Some {| endpoint := "/upload_video"; method := POST;
            body := FormFile {| name := "a.mp4" |} |}.
Proof.
  destruct (Legacy_start_uploads_then_starts "null"
              (LegacyPage.videoUploadInput_change [{| name := "a.mp4" |}]
                 (LegacyPage.start "" "" [])))
    as (_ & H & _).
  apply H. reflexivity.
Defined.
